(** * The request policy pipeline of the healthcare API backend

    A shallow embedding of the cross-cutting middleware of
    [web-app/backend/src]:

    - [middleware/errorHandler.ts]: the error handler, its persistence of
      [system_errors] rows and its sanitizers;
    - [middleware/auth.ts]: [authenticateToken];
    - [middleware/auditLogger.ts], as [server.ts] imports it: the finish
      listener of the audit middleware with [shouldAuditRequest],
      [containsPHI], [logAuditEvent], [logPHIAccess], [getActionType],
      [getResourceType] and their helpers.

    JavaScript values are a small inductive type, objects are association
    lists in property order, and the code's effects (the database, the local
    logger, the response object, [next]) are threaded through a state and
    exception monad whose state survives a caught exception, as the effects
    of a JavaScript [try] block do. *)

From Stdlib Require Import String Ascii List ZArith Bool Lia PrimFloat.
From Stdlib Require Import DecimalString.
From Stdlib Require Import Permutation.
Import ListNotations.

Local Open Scope string_scope.
Local Open Scope list_scope.
Set Warnings "-register-all".

(* ================================================================== *)
(** * Strings *)
(* ================================================================== *)

Module Str.

(** [hay.includes(needle)] of JavaScript. *)
Fixpoint includes (hay needle : string) : bool :=
  if prefix needle hay then true
  else match hay with
       | EmptyString => false
       | String _ rest => includes rest needle
       end.

(** [s.startsWith(p)]. *)
Definition startsWith (s p : string) : bool := prefix p s.

(** A string is falsy exactly when it is empty. *)
Definition nonempty (s : string) : bool :=
  match s with EmptyString => false | _ => true end.

(** [s.split(sep)] for a one-character separator: the pieces between the
    separators, empty pieces included. *)
Fixpoint split_aux (sep : ascii) (cur : string) (s : string) : list string :=
  match s with
  | EmptyString => [cur]
  | String c rest =>
      if Ascii.eqb c sep then cur :: split_aux sep EmptyString rest
      else split_aux sep (cur ++ String c EmptyString) rest
  end.

Definition split (s : string) (sep : ascii) : list string :=
  split_aux sep EmptyString s.

(** [xs.join(sep)]. *)
Fixpoint join (sep : string) (xs : list string) : string :=
  match xs with
  | [] => EmptyString
  | [x] => x
  | x :: rest => x ++ sep ++ join sep rest
  end.

(** [n.toString()] for an integer. *)
Definition of_Z (z : Z) : string := NilZero.string_of_int (Z.to_int z).

(** [String(i)] for an array index. *)
Definition of_nat (n : nat) : string := NilZero.string_of_uint (Nat.to_uint n).

End Str.

(* ================================================================== *)
(** * JavaScript values *)
(* ================================================================== *)

(** The values a parsed request carries. An object is the list of its own
    enumerable properties in property order. *)
Inductive value : Type :=
| VUndefined
| VNull
| VBool (b : bool)
| VNum (f : float)
| VStr (s : string)
| VArr (items : list value)
| VObj (props : list (string * value)).

Definition object := list (string * value).

Module Js.

(** Truthiness: [undefined], [null], [false], [0], [NaN] and the empty
    string are falsy; every object and array is truthy. *)
Definition truthy (v : value) : bool :=
  match v with
  | VUndefined | VNull => false
  | VBool b => b
  | VNum f => negb (PrimFloat.eqb f 0%float || negb (PrimFloat.eqb f f))
  | VStr s => Str.nonempty s
  | VArr _ | VObj _ => true
  end.

(** [a || b]. *)
Definition or (a b : value) : value := if truthy a then a else b.

(** [o[k]] on the own properties of [o]: the first binding of [k]. *)
Fixpoint lookup (k : string) (o : object) : option value :=
  match o with
  | [] => None
  | (k', v) :: rest => if String.eqb k k' then Some v else lookup k rest
  end.

(** [o[k]] as a value: a missing property reads as [undefined]. *)
Definition get (o : object) (k : string) : value :=
  match lookup k o with Some v => v | None => VUndefined end.

(** [v?.k]: property access that reads [undefined] off a non-object. *)
Definition opt_get (v : value) (k : string) : value :=
  match v with VObj o => get o k | _ => VUndefined end.

(** [o[k] = v]: an existing property keeps its place, a new one is added
    last. *)
Fixpoint set (k : string) (v : value) (o : object) : object :=
  match o with
  | [] => [(k, v)]
  | (k', v') :: rest =>
      if String.eqb k k' then (k', v) :: rest else (k', v') :: set k v rest
  end.

Definition keys (o : object) : list string := map fst o.

Fixpoint index_props {A} (f : A -> value) (i : nat) (xs : list A) : object :=
  match xs with
  | [] => []
  | x :: rest => (Str.of_nat i, f x) :: index_props f (S i) rest
  end.

Definition chars (s : string) : list ascii := list_ascii_of_string s.

(** [{ ...v }]: the own enumerable properties of [v]. An array and a
    string spread to their indexed elements; [undefined], [null], numbers
    and booleans spread to nothing. *)
Definition spread (v : value) : object :=
  match v with
  | VObj o => o
  | VArr xs => index_props (fun x => x) 0 xs
  | VStr s => index_props (fun c => VStr (String c EmptyString)) 0 (chars s)
  | _ => []
  end.

Definition of_option (o : option string) : value :=
  match o with Some s => VStr s | None => VUndefined end.

End Js.

(** [a || d] where [a] is a string or [undefined] and [d] a string. *)
Definition or_str (a : option string) (d : string) : string :=
  match a with
  | Some s => if Str.nonempty s then s else d
  | None => d
  end.

(** [a || b] where both are a string or [undefined]; [or_opt a None] is
    [a] when it is truthy. *)
Definition or_opt (a b : option string) : option string :=
  match a with
  | Some s => if Str.nonempty s then a else b
  | None => b
  end.

(* ================================================================== *)
(** * Requests *)
(* ================================================================== *)

(** [req.user] of [AuthenticatedRequest] (auth.ts). *)
Record User := {
  userId : string;
  username : string;
  roles : list string;
  permissions : list string
}.

(** The parts of an Express request the middleware reads. [req_headers]
    has lower-case names, as Node delivers them. *)
Record Request := {
  req_method : string;
  req_path : string;
  req_originalUrl : string;
  req_ip : option string;
  req_remoteAddress : option string;  (* req.connection.remoteAddress *)
  req_headers : object;
  req_body : value;
  req_params : value;
  req_query : value;
  req_sessionID : option string;
  req_user : option User
}.

(** [req.get(name)]: the header as a string, [undefined] when absent. *)
Definition req_get (req : Request) (lower_name : string) : value :=
  Js.get (req_headers req) lower_name.

(* ================================================================== *)
(** * The request classifier (audit middleware) *)
(* ================================================================== *)

Definition methodMap : list (string * string) :=
  [ ("GET", "SELECT"); ("POST", "INSERT"); ("PUT", "UPDATE");
    ("PATCH", "UPDATE"); ("DELETE", "DELETE") ].

Fixpoint assoc (k : string) (m : list (string * string)) : option string :=
  match m with
  | [] => None
  | (k', v) :: rest => if String.eqb k k' then Some v else assoc k rest
  end.

(** [getActionType(method, path)]. [req.method] is one of the method
    tokens of the HTTP parser, so [methodMap[method]] reads an own property
    of the map or nothing. *)
Definition getActionType (method path : string) : string :=
  if Str.includes path "/auth/login" then "LOGIN"
  else if Str.includes path "/auth/logout" then "LOGOUT"
  else or_str (assoc method methodMap) "ACCESS".

(** [getResourceType(path)]. *)
Definition getResourceType (path : string) : string :=
  if Str.includes path "/members" then "MEMBER"
  else if Str.includes path "/claims" then "CLAIM"
  else if Str.includes path "/providers" then "PROVIDER"
  else if Str.includes path "/users" || Str.includes path "/auth" then "USER"
  else if Str.includes path "/admin" then "SYSTEM"
  else "UNKNOWN".

(** [shouldAuditRequest(req)]. *)
Definition shouldAuditRequest (req : Request) : bool :=
  if match req_user req with Some _ => true | None => false end then true
  else if Str.includes (req_path req) "/auth/" then true
  else if Str.includes (req_path req) "/admin/" then true
  else if existsb (String.eqb (req_method req)) ["POST"; "PUT"; "PATCH"; "DELETE"]
       then true
  else existsb (fun endpoint => Str.includes (req_path req) endpoint)
               ["/members/"; "/claims/"; "/providers/"].

(** [containsPHI(req)]. *)
Definition containsPHI (req : Request) : bool :=
  existsb (fun endpoint => Str.includes (req_path req) endpoint)
          ["/members"; "/claims"].

(** ** Helpers of the audit record *)

Definition is_digit (c : ascii) : bool :=
  let n := nat_of_ascii c in (48 <=? n)%nat && (n <=? 57)%nat.

(** The class [[0-9a-f-]] under the [i] flag. *)
Definition is_hex_dash (c : ascii) : bool :=
  let n := nat_of_ascii c in
  is_digit c || ((97 <=? n)%nat && (n <=? 102)%nat)
  || ((65 <=? n)%nat && (n <=? 70)%nat) || (n =? 45)%nat.

(** The longest prefix of [s] whose characters satisfy [p], and the rest. *)
Fixpoint span (p : ascii -> bool) (s : string) : string * string :=
  match s with
  | EmptyString => (EmptyString, EmptyString)
  | String c rest =>
      if p c then let '(a, b) := span p rest in (String c a, b)
      else (EmptyString, s)
  end.

(** [n] characters of class [p] at the head of [s]: the characters and the
    rest, or nothing. *)
Fixpoint take_class (p : ascii -> bool) (n : nat) (s : string)
  : option (string * string) :=
  match n with
  | O => Some (EmptyString, s)
  | S n' =>
      match s with
      | String c rest =>
          if p c then
            match take_class p n' rest with
            | Some (a, b) => Some (String c a, b)
            | None => None
            end
          else None
      | EmptyString => None
      end
  end.

(** [(?:\/|$)]: a slash or the end of the input. *)
Definition at_slash_or_end (s : string) : bool :=
  match s with
  | EmptyString => true
  | String c _ => Ascii.eqb c "/"
  end.

(** The group of [([0-9a-f-]{36}|\d+)(?:\/|$)] matched at the head of [s]:
    the first alternative, then the second with its greedy digit run (a
    shorter run is followed by a digit, so it never matches). *)
Definition id_token (s : string) : option string :=
  let digits := span is_digit s in
  let by_digits :=
    if Str.nonempty (fst digits) && at_slash_or_end (snd digits)
    then Some (fst digits) else None in
  match take_class is_hex_dash 36 s with
  | Some (tok, rest) => if at_slash_or_end rest then Some tok else by_digits
  | None => by_digits
  end.

(** The first match of [/\/([0-9a-f-]{36}|\d+)(?:\/|$)/i] in [s]. *)
Fixpoint match_resource_id (s : string) : option string :=
  match s with
  | EmptyString => None
  | String c rest =>
      if Ascii.eqb c "/" then
        match id_token rest with
        | Some tok => Some tok
        | None => match_resource_id rest
        end
      else match_resource_id rest
  end.

(** [getResourceId(req)]. *)
Definition getResourceId (req : Request) : option string :=
  match_resource_id (req_path req).

(** A letter in lower case; the [i] flag compares letters so. *)
Definition lower (c : ascii) : ascii :=
  let n := nat_of_ascii c in
  if (65 <=? n)%nat && (n <=? 90)%nat then ascii_of_nat (n + 32) else c.

(** [s] without the prefix [p], when [p] is a prefix of [s] up to the case
    of letters. *)
Fixpoint strip_prefix (p s : string) : option string :=
  match p, s with
  | EmptyString, _ => Some s
  | String a p', String b s' =>
      if Ascii.eqb (lower a) (lower b) then strip_prefix p' s' else None
  | String _ _, EmptyString => None
  end.

(** The first match of [/\/members\/([0-9a-f-]{36})/i] in [s]. *)
Fixpoint match_member_uuid (s : string) : option string :=
  let here :=
    match strip_prefix "/members/" s with
    | Some rest => option_map fst (take_class is_hex_dash 36 rest)
    | None => None
    end in
  match here with
  | Some tok => Some tok
  | None =>
      match s with
      | EmptyString => None
      | String _ rest => match_member_uuid rest
      end
  end.

Definition segments (path : string) : list string :=
  filter Str.nonempty (Str.split path "/").

(** [getModuleName(path)]. *)
Definition getModuleName (path : string) : string :=
  or_str (nth_error (segments path) 1) "api".

(** [getFunctionName(path)]. *)
Definition getFunctionName (path : string) : string :=
  or_str (nth_error (segments path) 2) "index".

(** [getPHIElements(path, body)]. *)
Definition getPHIElements (path : string) (body : value) : list string :=
  (if Str.includes path "/members" then
     ["DEMOGRAPHIC"; "CONTACT"; "IDENTIFICATION"]
     ++ (if Js.truthy body
            && Js.truthy (Js.or (Js.opt_get body "ssn")
                                (Js.opt_get body "social_security_number"))
         then ["SSN"] else [])
   else [])
  ++ (if Str.includes path "/claims" then ["MEDICAL"; "FINANCIAL"] else []).

(** [getPHIType(path)]. *)
Definition getPHIType (path : string) : string :=
  if Str.includes path "/members" then "DEMOGRAPHIC"
  else if Str.includes path "/claims" then "MEDICAL"
  else "GENERAL".

(** [getMemberIdFromRequest(req)]. *)
Definition getMemberIdFromRequest (req : Request) : value :=
  if Js.truthy (Js.opt_get (req_params req) "memberId")
  then Js.opt_get (req_params req) "memberId"
  else if Js.truthy (Js.opt_get (req_body req) "memberId")
  then Js.opt_get (req_body req) "memberId"
  else if Js.truthy (Js.opt_get (req_query req) "memberId")
  then Js.opt_get (req_query req) "memberId"
  else if Str.includes (req_path req) "/members/"
  then Js.of_option (match_member_uuid (req_path req))
  else VUndefined.

(* ================================================================== *)
(** * The error handler: pure parts (errorHandler.ts) *)
(* ================================================================== *)

(** An item of [error.details], as the validation library produces it. *)
Record ValidationDetail := { vd_message : string }.

(** [AppError], with the properties the handler reads off an error. *)
Record AppError := {
  err_name : string;
  err_message : string;
  err_stack : option string;
  err_statusCode : option Z;
  err_code : option string;
  err_details : option (list ValidationDetail)
}.

(** [process.env]. *)
Record Env := {
  NODE_ENV : option string;
  SERVER_NAME : option string;
  JWT_SECRET : option string
}.

Definition env_is (e : option string) (mode : string) : bool :=
  match e with Some m => String.eqb m mode | None => false end.

(** [classifyErrorType(error)]. *)
Definition classifyErrorType (error : AppError) : string :=
  if String.eqb (err_name error) "ValidationError" then "VALIDATION_ERROR"
  else if String.eqb (err_name error) "UnauthorizedError" then "AUTHENTICATION_ERROR"
  else if match err_code error with
          | Some c => Str.startsWith c "23"
          | None => false
          end then "DATABASE_ERROR"
  else if match err_statusCode error with
          | Some sc => negb (sc =? 0)%Z && (400 <=? sc)%Z && (sc <? 500)%Z
          | None => false
          end then "CLIENT_ERROR"
  else "SYSTEM_ERROR".

(** [getSeverityLevel(statusCode)]. *)
Definition getSeverityLevel (statusCode : Z) : string :=
  if (500 <=? statusCode)%Z then "HIGH"
  else if (400 <=? statusCode)%Z then "MEDIUM"
  else "LOW".

(** [getComponentFromPath(path)]. *)
Definition getComponentFromPath (path : string) : string :=
  match nth_error (segments path) 1 with
  | Some seg => seg
  | None => "unknown"
  end.

(** [formatValidationError(error)]. *)
Definition formatValidationError (error : AppError) : string :=
  match err_details error with
  | Some details => Str.join "; " (map vd_message details)
  | None => or_str (Some (err_message error)) "Validation failed"
  end.

Definition REDACTED : value := VStr "[REDACTED]".

(** [if (sanitized[field]) { sanitized[field] = '[REDACTED]'; }]. *)
Definition redact_field (sanitized : object) (field : string) : object :=
  if Js.truthy (Js.get sanitized field)
  then Js.set field REDACTED sanitized
  else sanitized.

(** The loop [fields.forEach(field => ...)] over the copy. *)
Definition redact (fields : list string) (o : object) : object :=
  fold_left redact_field fields o.

Definition sensitiveFields : list string :=
  ["password"; "ssn"; "social_security_number"; "token"; "apiKey"].

Definition sensitiveHeaders : list string :=
  ["authorization"; "cookie"; "x-api-key"].

(** [sanitizeRequestData(data)]. *)
Definition sanitizeRequestData (data : value) : value :=
  if negb (Js.truthy data) then data
  else VObj (redact sensitiveFields (Js.spread data)).

(** [sanitizeHeaders(headers)]. *)
Definition sanitizeHeaders (headers : value) : value :=
  VObj (redact sensitiveHeaders (Js.spread headers)).

(** [errorDetails] of the handler. *)
Record ErrorDetails := {
  ed_message : string;
  ed_stack : option string;
  ed_url : string;
  ed_method : string;
  ed_ip : option string;
  ed_userAgent : value;
  ed_body : value;
  ed_params : value;
  ed_query : value;
  ed_statusCode : Z;
  ed_timestamp : string
}.

(** [response.error]. A property holding [undefined] is not serialised, so
    [eb_stack] is the stack the client receives. *)
Record ErrorBody := {
  eb_status : Z;
  eb_message : string;
  eb_timestamp : string;
  eb_stack : option string;
  eb_details : option ErrorDetails;
  eb_requestId : option value
}.

Inductive ResponseBody :=
| ErrorEnvelope (e : ErrorBody)        (* { error: { status, message, ... } } *)
| SimpleError (msg : string).          (* { error: msg } *)

(** [let { statusCode = 500, message } = error]. *)
Definition initialStatus (error : AppError) : Z :=
  match err_statusCode error with Some sc => sc | None => 500%Z end.

(** The chain "Handle specific error types" applied to the initial
    [statusCode] and [message]. *)
Definition classify (error : AppError) : Z * string :=
  if String.eqb (err_name error) "ValidationError"
  then (400%Z, formatValidationError error)
  else if String.eqb (err_name error) "UnauthorizedError"
  then (401%Z, "Invalid credentials")
  else if String.eqb (err_name error) "CastError"
  then (400%Z, "Invalid ID format")
  else if match err_code error with Some c => String.eqb c "23505" | None => false end
  then (409%Z, "Resource already exists")
  else if match err_code error with Some c => String.eqb c "23503" | None => false end
  then (400%Z, "Invalid reference to related resource")
  else if match err_code error with Some c => String.eqb c "23502" | None => false end
  then (400%Z, "Required field is missing")
  else (initialStatus error, err_message error).

(** "Don't expose internal errors in production". *)
Definition maskMessage (env : Env) (statusCode : Z) (message : string) : string :=
  if env_is (NODE_ENV env) "production" && (statusCode =? 500)%Z
  then "Internal server error occurred"
  else message.

Definition buildErrorDetails (error : AppError) (req : Request) (now : string)
  : ErrorDetails :=
  {| ed_message := err_message error;
     ed_stack := err_stack error;
     ed_url := req_originalUrl req;
     ed_method := req_method req;
     ed_ip := req_ip req;
     ed_userAgent := req_get req "user-agent";
     ed_body := req_body req;
     ed_params := req_params req;
     ed_query := req_query req;
     ed_statusCode := initialStatus error;
     ed_timestamp := now |}.

(** The status and body the handler sends: lines 60 to 104. [t0] and [t1]
    are the two readings of the clock, for [errorDetails] and for the
    response. *)
Definition errorResponse (env : Env) (error : AppError) (req : Request)
    (t0 t1 : string) : Z * ResponseBody :=
  let '(statusCode, message) := classify error in
  let message := maskMessage env statusCode message in
  let development := env_is (NODE_ENV env) "development" in
  let requestId := Js.get (req_headers req) "x-request-id" in
  (statusCode,
   ErrorEnvelope
     {| eb_status := statusCode;
        eb_message := message;
        eb_timestamp := t1;
        eb_stack := if development then err_stack error else None;
        eb_details :=
          if development then Some (buildErrorDetails error req t0) else None;
        eb_requestId := if Js.truthy requestId then Some requestId else None |}).

(* ================================================================== *)
(** * The stores and the effects of the middleware *)
(* ================================================================== *)

(** A row of [system_errors], in the column order of the INSERT. *)
Record SystemErrorRecord := {
  se_error_type : string;
  se_severity_level : string;
  se_error_code : string;
  se_error_message : string;
  se_server_name : string;
  se_application_component : string;
  se_user_id : option string;
  se_request_id : value;
  se_stack_trace : option string;
  se_request_data : value;      (* the object given to JSON.stringify *)
  se_environment : string
}.

(** A row of [audit_log]. *)
Record AuditRecord := {
  al_user_id : option string;
  al_username : option string;
  al_client_ip : string;
  al_user_agent : value;
  al_action_type : string;
  al_resource_type : string;
  al_resource_id : option string;
  al_application_name : string;
  al_module_name : string;
  al_function_name : string;
  al_contains_phi : bool;
  al_hipaa_compliant : bool;
  al_business_justification : value
}.

(** A row of [phi_access_log]. *)
Record PHIAccessRecord := {
  pa_user_id : string;
  pa_username : string;
  pa_user_role : string;
  pa_member_id : value;
  pa_phi_type : string;
  pa_phi_elements : list string;
  pa_access_reason : value;
  pa_access_method : string;
  pa_minimum_necessary : bool;
  pa_source_system : string;
  pa_client_ip : option string;
  pa_session_id : string
}.

(** The statements the middleware sends through [query]. *)
Inductive Query :=
| InsertSystemError (r : SystemErrorRecord)
| InsertAuditLog (r : AuditRecord)
| InsertPhiAccessLog (r : PHIAccessRecord)
| SelectUser (userId : value)
| UpdateLastActivity (user_id : string).

(** A row of the user query of [authenticateToken]; [array_agg] yields
    [null] entries for a user without roles. *)
Record UserRow := {
  row_user_id : string;
  row_username : string;
  row_roles : list (option string);
  row_permissions : list (option string)
}.

(** A thrown JavaScript error. *)
Record exn := Exn { exn_message : string }.

Inductive outcome (A : Type) : Type :=
| Ret (a : A)
| Throw (e : exn).
Arguments Ret {A} a.
Arguments Throw {A} e.

Inductive LogLevel := LError | LWarn.

Inductive LogPayload :=
| PNone
| PExn (e : exn)
| PDetails (d : ErrorDetails).

(** What the middleware does to the outside, in order; [Responded] is the
    call [res.status(status).json(body)] with what it was handed. *)
Inductive Event :=
| Logged (level : LogLevel) (msg : string) (payload : LogPayload)
| AuditLogged (event : string) (uid : option string) (error : string)
| Queried (q : Query)
| Responded (status : Z) (body : ResponseBody)
| NextCalled.

(** [metadata] of [logAuditEvent]. *)
Record AuditMetadata := {
  md_duration : Z;
  md_statusCode : option Z;
  md_responseBody : value
}.

(** The row [logErrorToDatabase(error, req, statusCode)] inserts. *)
Definition systemErrorRecord (env : Env) (error : AppError) (req : Request)
    (statusCode : Z) : SystemErrorRecord :=
  let user := req_user req in
  {| se_error_type := classifyErrorType error;
     se_severity_level := getSeverityLevel statusCode;
     se_error_code := or_str (err_code error) (Str.of_Z statusCode);
     se_error_message := err_message error;
     se_server_name := or_str (SERVER_NAME env) "healthcare-api";
     se_application_component := getComponentFromPath (req_path req);
     se_user_id := option_map userId user;
     se_request_id := Js.or (Js.get (req_headers req) "x-request-id") VNull;
     se_stack_trace := err_stack error;
     se_request_data :=
       VObj [ ("method", VStr (req_method req));
              ("url", VStr (req_originalUrl req));
              ("body", sanitizeRequestData (req_body req));
              ("params", req_params req);
              ("query", req_query req);
              ("headers", sanitizeHeaders (VObj (req_headers req))) ];
     se_environment := or_str (NODE_ENV env) "development" |}.

(** [auditData] of [logAuditEvent], with the justification the INSERT
    adds. *)
Definition auditRecord (req : Request) : AuditRecord :=
  {| al_user_id := option_map userId (req_user req);
     al_username := option_map username (req_user req);
     al_client_ip := or_str (or_opt (req_ip req) (req_remoteAddress req)) "unknown";
     al_user_agent := req_get req "user-agent";
     al_action_type := getActionType (req_method req) (req_path req);
     al_resource_type := getResourceType (req_path req);
     al_resource_id := getResourceId req;
     al_application_name := "healthcare-web-app";
     al_module_name := getModuleName (req_path req);
     al_function_name := getFunctionName (req_path req);
     al_contains_phi := containsPHI req;
     al_hipaa_compliant := true;
     al_business_justification :=
       Js.or (Js.opt_get (req_body req) "businessJustification")
             (VStr (req_method req ++ " request to " ++ req_path req)) |}.

(** The row [logPHIAccess] inserts for the authenticated [user]. *)
Definition phiAccessRecord (req : Request) (user : User) : PHIAccessRecord :=
  let phiElements := getPHIElements (req_path req) (req_body req) in
  let memberId := getMemberIdFromRequest req in
  {| pa_user_id := userId user;
     pa_username := username user;
     pa_user_role := or_str (nth_error (roles user) 0) "User";
     pa_member_id := memberId;
     pa_phi_type := getPHIType (req_path req);
     pa_phi_elements := phiElements;
     pa_access_reason :=
       Js.or (Js.opt_get (req_body req) "accessReason") (VStr "API access");
     pa_access_method := "API";
     pa_minimum_necessary := true;
     pa_source_system := "healthcare-web-app";
     pa_client_ip := req_ip req;
     pa_session_id := or_str (req_sessionID req) "web-session" |}.

(** [authHeader && authHeader.split(' ')[1]]; a header is a string or
    absent, and [split] does not exist on any other value. *)
Definition bearerToken (authHeader : value) : outcome (option string) :=
  match authHeader with
  | VStr s => if Str.nonempty s then Ret (nth_error (Str.split s " ") 1)
              else Ret None
  | VUndefined | VNull => Ret None
  | v => if Js.truthy v
         then Throw (Exn "TypeError: authHeader.split is not a function")
         else Ret None
  end.

(** [decoded.userId]: reading a property off [undefined] or [null]
    throws. *)
Definition prop (v : value) (k : string) : outcome value :=
  match v with
  | VUndefined | VNull => Throw (Exn "TypeError: Cannot read properties")
  | _ => Ret (Js.opt_get v k)
  end.

(** [xs.filter(x => x !== null)]. *)
Definition non_null (xs : list (option string)) : list string :=
  flat_map (fun r => match r with Some s => [s] | None => [] end) xs.

(** [req.user] as [authenticateToken] builds it from the row. *)
Definition userOfRow (user : UserRow) : User :=
  {| userId := row_user_id user;
     username := row_username user;
     roles := non_null (row_roles user);
     permissions := non_null (row_permissions user) |}.

(** ** The response object *)

(** The status codes a response accepts: for any other, Node's [writeHead]
    throws a RangeError and nothing is sent. *)
Definition valid_status (status : Z) : bool :=
  ((100 <=? status) && (status <=? 999))%Z.

(** A response has gone out: an earlier call with a status the response
    accepted. *)
Definition headers_sent (tr : list Event) : bool :=
  existsb (fun ev => match ev with
                     | Responded status _ => valid_status status
                     | _ => false
                     end) tr.

(** What [res.status(status).json(body)] gives back to its caller: it
    throws on a response that has gone out already ([sent]), and for a
    status the response refuses. *)
Definition send_outcome (sent : bool) (status : Z) : outcome unit :=
  if sent
  then Throw (Exn "Error [ERR_HTTP_HEADERS_SENT]: Cannot set headers after they are sent to the client")
  else if valid_status status
       then Ret tt
       else Throw (Exn "RangeError [ERR_HTTP_INVALID_STATUS_CODE]: Invalid status code").

Section Effects.

(** The persistence store: any state, and any deterministic behaviour of
    [query] on it, failure included. *)
Context {DbState : Type}.
Variable db_query : Query -> DbState -> outcome (list UserRow) * DbState.

(** [jwt.verify(token, secret)]: the decoded payload, or a throw. *)
Variable jwt_verify : string -> string -> outcome value.

Variable env : Env.

Record World := {
  w_db : DbState;
  w_user : option User;       (* req.user, as authenticateToken assigns it *)
  w_trace : list Event
}.

Definition M (A : Type) : Type := World -> outcome A * World.

Definition ret {A} (a : A) : M A := fun w => (Ret a, w).

Definition bind {A B} (m : M A) (k : A -> M B) : M B :=
  fun w =>
    match m w with
    | (Ret a, w') => k a w'
    | (Throw e, w') => (Throw e, w')
    end.

Definition throw {A} (e : exn) : M A := fun w => (Throw e, w).

(** [try { body } catch (e) { handler }]: what [body] did before it threw
    stays done. *)
Definition try_catch {A} (body : M A) (handler : exn -> M A) : M A :=
  fun w =>
    match body w with
    | (Ret a, w') => (Ret a, w')
    | (Throw e, w') => handler e w'
    end.

Definition emit (ev : Event) : M unit :=
  fun w => (Ret tt, {| w_db := w_db w; w_user := w_user w;
                       w_trace := w_trace w ++ [ev] |}).

Definition lift {A} (o : outcome A) : M A := fun w => (o, w).

(** [await query(...)]. *)
Definition query (q : Query) : M (list UserRow) :=
  fun w =>
    let '(o, db') := db_query q (w_db w) in
    (o, {| w_db := db'; w_user := w_user w;
           w_trace := w_trace w ++ [Queried q] |}).

Definition set_user (u : User) : M unit :=
  fun w => (Ret tt, {| w_db := w_db w; w_user := Some u;
                       w_trace := w_trace w |}).

Definition logger_error (msg : string) (p : LogPayload) : M unit :=
  emit (Logged LError msg p).

(** [res.status(status).json(body)] where nothing has been sent yet, as
    in [authenticateToken], which answers before any route handler runs:
    the call is recorded, and it throws when the status is refused. *)
Definition respond (status : Z) (body : ResponseBody) : M unit :=
  fun w => (send_outcome false status,
            {| w_db := w_db w; w_user := w_user w;
               w_trace := w_trace w ++ [Responded status body] |}).

(** [res.status(status).json(body)] where a response may have gone out
    before, as in [errorHandler], which runs after the route handler. *)
Definition respond_late (status : Z) (body : ResponseBody) : M unit :=
  fun w => (send_outcome (headers_sent (w_trace w)) status,
            {| w_db := w_db w; w_user := w_user w;
               w_trace := w_trace w ++ [Responded status body] |}).

Definition next : M unit := emit NextCalled.

Notation "x <- m ;; k" := (bind m (fun x => k))
  (at level 61, m at next level, right associativity).
Notation "m ;;; k" := (bind m (fun _ => k))
  (at level 61, right associativity).

(** ** errorHandler.ts *)

(** [logErrorToDatabase(error, req, statusCode)]. *)
Definition logErrorToDatabase (error : AppError) (req : Request)
    (statusCode : Z) : M unit :=
  try_catch
    (query (InsertSystemError (systemErrorRecord env error req statusCode)) ;;;
     ret tt)
    (fun dbError =>
       logger_error "Database error logging failed:" (PExn dbError)).

(** [errorHandler(error, req, res, next)]; [t0] and [t1] are what
    [new Date().toISOString()] returns at its two calls.  The send of the
    last line stands outside every [try]. *)
Definition errorHandler (error : AppError) (req : Request)
    (t0 t1 : string) : M unit :=
  let statusCode := initialStatus error in
  let errorDetails := buildErrorDetails error req t0 in
  logger_error "API Error:" (PDetails errorDetails) ;;;
  try_catch
    (logErrorToDatabase error req statusCode)
    (fun dbError =>
       logger_error "Failed to log error to database:" (PExn dbError)) ;;;
  let '(status, response) := errorResponse env error req t0 t1 in
  respond_late status response.

(** ** The audit middleware *)

(** [logAuditEvent(req, res, metadata)]. *)
Definition logAuditEvent (req : Request) (metadata : AuditMetadata) : M unit :=
  let auditData := auditRecord req in
  try_catch
    (query (InsertAuditLog auditData) ;;; ret tt)
    (fun error => logger_error "Failed to insert audit log:" (PExn error)).

(** [logPHIAccess(req, res)]. *)
Definition logPHIAccess (req : Request) : M unit :=
  match req_user req with
  | None => ret tt
  | Some user =>
      try_catch
        (query (InsertPhiAccessLog (phiAccessRecord req user)) ;;; ret tt)
        (fun error => logger_error "Failed to log PHI access:" (PExn error))
  end.

(** The listener of [res.on('finish', ...)] that the audit middleware
    registers after it has called [next()]. *)
Definition auditOnFinish (req : Request) (metadata : AuditMetadata) : M unit :=
  try_catch
    ((if shouldAuditRequest req then logAuditEvent req metadata else ret tt) ;;;
     (if containsPHI req then logPHIAccess req else ret tt))
    (fun error => logger_error "Audit logging failed:" (PExn error)).

(** ** auth.ts *)

(** [authenticateToken(req, res, next)]. *)
Definition authenticateToken (req : Request) : M unit :=
  token <- lift (bearerToken (Js.get (req_headers req) "authorization")) ;;
  match or_opt token None with
  | None => respond 401 (SimpleError "Access token required")
  | Some token =>
      try_catch
        (decoded <- lift (jwt_verify token
                            (or_str (JWT_SECRET env) "healthcare-secret")) ;;
         uid <- lift (prop decoded "userId") ;;
         userResult <- query (SelectUser uid) ;;
         match userResult with
         | [] => respond 401 (SimpleError "Invalid or expired token")
         | user :: _ =>
             set_user (userOfRow user) ;;;
             query (UpdateLastActivity (row_user_id user)) ;;;
             next
         end)
        (fun error =>
           logger_error "Token verification failed:" (PExn error) ;;;
           emit (AuditLogged "AUTHENTICATION_FAILED" None (exn_message error)) ;;;
           respond 403 (SimpleError "Invalid token"))
  end.

End Effects.

Arguments World : clear implicits.

(** ** Observations of a trace *)

(** The calls of [res.status(...).json(...)], in order, with what each
    was handed. *)
Definition responses (tr : list Event) : list (Z * ResponseBody) :=
  flat_map (fun ev => match ev with
                      | Responded st body => [(st, body)]
                      | _ => []
                      end) tr.

Definition queries (tr : list Event) : list Query :=
  flat_map (fun ev => match ev with Queried q => [q] | _ => [] end) tr.

Definition next_calls (tr : list Event) : nat :=
  length (filter (fun ev => match ev with NextCalled => true | _ => false end) tr).

Definition is_phi_insert (q : Query) : bool :=
  match q with InsertPhiAccessLog _ => true | _ => false end.

(** The error body of a response, for the observations below. *)
Definition response_error (r : Z * ResponseBody) : option ErrorBody :=
  match snd r with ErrorEnvelope e => Some e | SimpleError _ => None end.

(** The severity a persisted error row carries. *)
Definition query_severity (q : Query) : option string :=
  match q with
  | InsertSystemError r => Some (se_severity_level r)
  | _ => None
  end.

(** What a guarded INSERT leaves behind: the attempt, and the local log
    line when the store failed; and the store after it. *)
Definition store_attempt {DbState : Type}
    (db_query : Query -> DbState -> outcome (list UserRow) * DbState)
    (q : Query) (msg : string) (db : DbState) : list Event * DbState :=
  match db_query q db with
  | (Ret _, db') => ([Queried q], db')
  | (Throw e, db') => ([Queried q; Logged LError msg (PExn e)], db')
  end.

(** The error matches none of the three names the handler knows. *)
Definition unnamed (error : AppError) : Prop :=
  err_name error <> "ValidationError" /\
  err_name error <> "UnauthorizedError" /\
  err_name error <> "CastError".

(** The error carries none of the three constraint codes the handler
    knows. *)
Definition uncoded (error : AppError) : Prop :=
  err_code error <> Some "23505" /\
  err_code error <> Some "23503" /\
  err_code error <> Some "23502".

(** The methods [shouldAuditRequest] counts as data modifications. *)
Definition mutating (method : string) : bool :=
  existsb (String.eqb method) ["POST"; "PUT"; "PATCH"; "DELETE"].

(** The world after a guarded INSERT. *)
Definition after_attempt {DbState : Type}
    (db_query : Query -> DbState -> outcome (list UserRow) * DbState)
    (q : Query) (msg : string) (w : World DbState) : World DbState :=
  let a := store_attempt db_query q msg (w_db w) in
  {| w_db := snd a; w_user := w_user w; w_trace := w_trace w ++ fst a |}.

(** The world after the finish listener of the audit middleware. *)
Definition after_audit {DbState : Type}
    (db_query : Query -> DbState -> outcome (list UserRow) * DbState)
    (req : Request) (w : World DbState) : World DbState :=
  let w1 :=
    if shouldAuditRequest req
    then after_attempt db_query (InsertAuditLog (auditRecord req))
           "Failed to insert audit log:" w
    else w in
  match containsPHI req, req_user req with
  | true, Some user =>
      after_attempt db_query (InsertPhiAccessLog (phiAccessRecord req user))
        "Failed to log PHI access:" w1
  | _, _ => w1
  end.

(** ** Sample inputs *)

Module Sample.

(** A store that accepts every statement and knows one active user. *)
Definition alice : UserRow :=
  {| row_user_id := "u-1"; row_username := "alice";
     row_roles := [Some "Analyst"; None]; row_permissions := [Some "read"] |}.

Definition healthy (q : Query) (db : unit) : outcome (list UserRow) * unit :=
  match q with
  | SelectUser _ => (Ret [alice], db)
  | _ => (Ret [], db)
  end.

(** A store whose every write fails. *)
Definition down (q : Query) (db : unit) : outcome (list UserRow) * unit :=
  match q with
  | SelectUser _ => (Ret [alice], db)
  | _ => (Throw (Exn "connection terminated"), db)
  end.

(** A verifier that accepts every token for the user [u-1]. *)
Definition verify (token secret : string) : outcome value :=
  Ret (VObj [("userId", VStr "u-1")]).

Definition env_of (mode : option string) : Env :=
  {| NODE_ENV := mode; SERVER_NAME := None; JWT_SECRET := None |}.

Definition start : World unit :=
  {| w_db := tt; w_user := None; w_trace := [] |}.

Definition request (method path : string) (headers : object)
    (user : option User) : Request :=
  {| req_method := method; req_path := path; req_originalUrl := path;
     req_ip := Some "203.0.113.9"; req_remoteAddress := None;
     req_headers := headers; req_body := VObj []; req_params := VObj [];
     req_query := VObj []; req_sessionID := None; req_user := user |}.

Definition analyst : User :=
  {| userId := "u-1"; username := "alice"; roles := ["Analyst"];
     permissions := ["read"] |}.

Definition metadata : AuditMetadata :=
  {| md_duration := 12; md_statusCode := Some 200%Z; md_responseBody := VNull |}.

Definition plain_error (name message : string) (statusCode : option Z) : AppError :=
  {| err_name := name; err_message := message; err_stack := Some "at handler";
     err_statusCode := statusCode; err_code := None; err_details := None |}.

End Sample.

(* ================================================================== *)
(** * Validation utilities (utils/validation.ts) *)
(* ================================================================== *)

(** [s.substring(n)]. *)
Fixpoint drop (n : nat) (s : string) : string :=
  match n, s with
  | O, _ => s
  | S n', String _ rest => drop n' rest
  | S _, EmptyString => EmptyString
  end.

Definition is_end (s : string) : bool :=
  match s with EmptyString => true | String _ _ => false end.

(** [-?]: the dash is taken when it is there; the digits that must follow
    cannot match a dash, so leaving it never helps. *)
Definition skip_dash (s : string) : string :=
  match s with
  | String c rest => if Ascii.eqb c "-" then rest else s
  | EmptyString => s
  end.

Definition is_upper (c : ascii) : bool :=
  let n := nat_of_ascii c in (65 <=? n)%nat && (n <=? 90)%nat.

(** [PATTERNS.SSN.test(s)], with [/^\d{3}-?\d{2}-?\d{4}$/]. *)
Definition SSN_test (s : string) : bool :=
  match take_class is_digit 3 s with
  | Some (_, r1) =>
      match take_class is_digit 2 (skip_dash r1) with
      | Some (_, r2) =>
          match take_class is_digit 4 (skip_dash r2) with
          | Some (_, r3) => is_end r3
          | None => false
          end
      | None => false
      end
  | None => false
  end.

(** [PATTERNS.NPI.test(s)], with [/^[1-9]\d{9}$/]. *)
Definition NPI_test (s : string) : bool :=
  match s with
  | String c rest =>
      is_digit c && negb (Ascii.eqb c "0")
      && match take_class is_digit 9 rest with
         | Some (_, r) => is_end r
         | None => false
         end
  | EmptyString => false
  end.

(** [PATTERNS.CPT.test(s)], with [/^\d{5}$/]. *)
Definition CPT_test (s : string) : bool :=
  match take_class is_digit 5 s with
  | Some (_, r) => is_end r
  | None => false
  end.

(** [PATTERNS.ICD10.test(s)], with [/^[A-Z]\d{2}(\.\d{1,3})?$/]: after the
    letter and two digits, the end, or a dot and a run of one to three
    digits that reaches the end. *)
Definition ICD10_test (s : string) : bool :=
  match s with
  | String c rest =>
      is_upper c
      && match take_class is_digit 2 rest with
         | Some (_, EmptyString) => true
         | Some (_, String dot frac) =>
             Ascii.eqb dot "."
             && (let '(digits, after) := span is_digit frac in
                 (1 <=? String.length digits)%nat
                 && (String.length digits <=? 3)%nat
                 && is_end after)
         | None => false
         end
  | EmptyString => false
  end.

(** [s.replace(/\D/g, '')]. *)
Fixpoint digits_only (s : string) : string :=
  match s with
  | EmptyString => EmptyString
  | String c rest =>
      if is_digit c then String c (digits_only rest) else digits_only rest
  end.

Definition invalidSSNs : list string :=
  [ "000000000"; "111111111"; "222222222"; "333333333";
    "444444444"; "555555555"; "666666666"; "777777777";
    "888888888"; "999999999"; "123456789" ].

(** [isInvalidSSN(ssn)]. *)
Definition isInvalidSSN (ssn : string) : bool :=
  let cleaned := digits_only ssn in
  existsb (String.eqb cleaned) invalidSSNs
  || Str.startsWith cleaned "000"
  || String.eqb (substring 3 2 cleaned) "00"
  || String.eqb (drop 5 cleaned) "0000".

(** [validateSSN(ssn)]. *)
Definition validateSSN (ssn : string) : bool :=
  SSN_test ssn && negb (isInvalidSSN ssn).

Definition is_space (c : ascii) : bool :=
  let n := nat_of_ascii c in
  ((9 <=? n)%nat && (n <=? 13)%nat) || (n =? 32)%nat.

(** [Number(c)] for a one-character string: the value of a digit, zero
    for white space, and otherwise [NaN], which is [None] here. *)
Definition Number_char (c : ascii) : option Z :=
  if is_digit c then Some (Z.of_nat (nat_of_ascii c - 48))
  else if is_space c then Some 0%Z
  else None.

(** One turn of the loop of [validateNPIChecksum] on the digit [n]. *)
Definition luhn_term (alternate : bool) (n : Z) : Z :=
  if alternate
  then (let n2 := (n * 2)%Z in if (9 <? n2)%Z then (n2 mod 10 + 1)%Z else n2)
  else n.

(** The loop of [validateNPIChecksum], from the last digit to the first;
    a [NaN] among the digits makes the sum [NaN]. *)
Fixpoint luhn_loop (from_last : list (option Z)) (sum : option Z)
    (alternate : bool) : option Z :=
  match from_last with
  | [] => sum
  | n :: rest =>
      luhn_loop rest
        (match sum, n with
         | Some s, Some v => Some (s + luhn_term alternate v)%Z
         | _, _ => None
         end)
        (negb alternate)
  end.

(** [validateNPIChecksum(npi)]; [NaN % 10 === 0] is false. *)
Definition validateNPIChecksum (npi : string) : bool :=
  let digits := map Number_char (list_ascii_of_string npi) in
  match luhn_loop (rev digits) (Some 0%Z) false with
  | Some sum => (sum mod 10 =? 0)%Z
  | None => false
  end.

(** [validateNPI(npi)]. *)
Definition validateNPI (npi : string) : bool :=
  if negb (NPI_test npi) then false else validateNPIChecksum npi.

(** [validateICD10(code)]. *)
Definition validateICD10 (code : string) : bool := ICD10_test code.

(** [validateCPT(code)]. *)
Definition validateCPT (code : string) : bool := CPT_test code.

(** Every character of [s] is of class [p]. *)
Fixpoint all_chars (p : ascii -> bool) (s : string) : bool :=
  match s with
  | EmptyString => true
  | String c rest => p c && all_chars p rest
  end.

(** The value of a digit character. *)
Definition digit_value (c : ascii) : Z := Z.of_nat (nat_of_ascii c - 48).

(** The sum the loop of [validateNPIChecksum] reaches on digits that are
    numbers. *)
Fixpoint luhn_sum (from_last : list Z) (alternate : bool) : Z :=
  match from_last with
  | [] => 0%Z
  | n :: rest => (luhn_term alternate n + luhn_sum rest (negb alternate))%Z
  end.

(** The flag of the loop after it has gone through [l]. *)
Definition flag_after (l : list Z) (alternate : bool) : bool :=
  if Nat.even (length l) then alternate else negb alternate.

(** The four ways [PATTERNS.SSN] lets the three parts of a number be
    written. *)
Definition ssn_written (area group serial s : string) : Prop :=
  s = (area ++ group ++ serial)%string \/
  s = (area ++ "-" ++ group ++ serial)%string \/
  s = (area ++ group ++ "-" ++ serial)%string \/
  s = (area ++ "-" ++ group ++ "-" ++ serial)%string.

(* ================================================================== *)
(** * The other middleware of auth.ts *)
(* ================================================================== *)

Section OptionalAuth.

Context {DbState : Type}.
Variable db_query : Query -> DbState -> outcome (list UserRow) * DbState.
Variable jwt_verify : string -> string -> outcome value.
Variable env : Env.

(** [optionalAuth(req, res, next)]. *)
Definition optionalAuth (req : Request) : M unit :=
  bind (lift (bearerToken (Js.get (req_headers req) "authorization")))
    (fun token =>
       match or_opt token None with
       | None => next
       | Some _ =>
           try_catch (authenticateToken db_query jwt_verify env req)
                     (fun error => next)
       end).

End OptionalAuth.

(** [required] of a 403 body and of the audit entry: the permission of
    [requirePermission], the roles of [requireRole]. *)
Inductive Required :=
| OnePermission (permission : string)
| AnyRole (roles : list string).

(** What a guard does: it writes an audit entry with [auditLog], answers
    with [res.status(...).json({ error, required })], or calls [next]. *)
Inductive GuardEffect :=
| GuardAudit (event : string) (uid : string) (required : Required)
    (held : list string) (resource : string)
| GuardRespond (status : Z) (error : string) (required : option Required)
| GuardNext.

(** [xs.includes(x)] on an array of strings. *)
Definition array_includes (xs : list string) (x : string) : bool :=
  existsb (String.eqb x) xs.

(** [requirePermission(requiredPermission)(req, res, next)]. *)
Definition requirePermission (requiredPermission : string) (req : Request)
  : list GuardEffect :=
  match req_user req with
  | None => [GuardRespond 401 "Authentication required" None]
  | Some user =>
      if negb (array_includes (permissions user) requiredPermission)
      then [ GuardAudit "PERMISSION_DENIED" (userId user)
               (OnePermission requiredPermission) (permissions user)
               (req_path req);
             GuardRespond 403 "Insufficient permissions"
               (Some (OnePermission requiredPermission)) ]
      else [GuardNext]
  end.

(** [requireRole(requiredRoles)(req, res, next)]; [requiredRoles] is one
    role or an array of roles. *)
Definition requireRole (requiredRoles : string + list string) (req : Request)
  : list GuardEffect :=
  let roles_ :=
    match requiredRoles with inl role => [role] | inr several => several end in
  match req_user req with
  | None => [GuardRespond 401 "Authentication required" None]
  | Some user =>
      let hasRole := existsb (fun role => array_includes (roles user) role) roles_ in
      if negb hasRole
      then [ GuardAudit "ROLE_ACCESS_DENIED" (userId user) (AnyRole roles_)
               (roles user) (req_path req);
             GuardRespond 403 "Insufficient role permissions"
               (Some (AnyRole roles_)) ]
      else [GuardNext]
  end.

(** The request as the middleware after [authenticateToken] sees it. *)
Definition with_user (req : Request) (user : option User) : Request :=
  {| req_method := req_method req; req_path := req_path req;
     req_originalUrl := req_originalUrl req; req_ip := req_ip req;
     req_remoteAddress := req_remoteAddress req; req_headers := req_headers req;
     req_body := req_body req; req_params := req_params req;
     req_query := req_query req; req_sessionID := req_sessionID req;
     req_user := user |}.

(* ================================================================== *)
(** * Errors the application raises (errorHandler.ts, utils/validation.ts) *)
(* ================================================================== *)

(** An instance of [class HealthcareAPIError]: the properties of
    [AppError] that the handler reads, with [status] and
    [isOperational]. *)
Record HealthcareAPIError := {
  api_error : AppError;
  api_status : string;
  api_isOperational : bool
}.

(** [new HealthcareAPIError(message, statusCode)]; [stack] is what
    [Error.captureStackTrace] records. The class sets no name, so the name
    is the one of [Error]. *)
Definition newHealthcareAPIError (message : string) (statusCode : Z)
    (stack : string) : HealthcareAPIError :=
  {| api_error :=
       {| err_name := "Error";
          err_message := message;
          err_stack := Some stack;
          err_statusCode := Some statusCode;
          err_code := None;
          err_details := None |};
     api_status :=
       if Str.startsWith (Str.of_Z statusCode) "4" then "fail" else "error";
     api_isOperational := true |}.

(** [notFound(req, res, next)]: the error it hands to [next]. *)
Definition notFound (req : Request) (stack : string) : HealthcareAPIError :=
  newHealthcareAPIError ("Route " ++ req_originalUrl req ++ " not found") 404 stack.

(** [error.name = name]. *)
Definition set_name (name : string) (e : HealthcareAPIError) : HealthcareAPIError :=
  {| api_error :=
       {| err_name := name;
          err_message := err_message (api_error e);
          err_stack := err_stack (api_error e);
          err_statusCode := err_statusCode (api_error e);
          err_code := err_code (api_error e);
          err_details := err_details (api_error e) |};
     api_status := api_status e;
     api_isOperational := api_isOperational e |}.

(** [(error as any).details = details]. *)
Definition set_details (details : list ValidationDetail)
    (e : HealthcareAPIError) : HealthcareAPIError :=
  {| api_error :=
       {| err_name := err_name (api_error e);
          err_message := err_message (api_error e);
          err_stack := err_stack (api_error e);
          err_statusCode := err_statusCode (api_error e);
          err_code := err_code (api_error e);
          err_details := Some details |};
     api_status := api_status e;
     api_isOperational := api_isOperational e |}.

(** What [schema.validate(input, options)] returns: the details of the
    error when there is one, and the value. *)
Record JoiResult := {
  joi_error : option (list ValidationDetail);
  joi_value : value
}.

(** What a validation middleware does: [next(validationError)], or the
    replacement of the input by the validated value and [next()]. *)
Inductive Validated :=
| Invalid (validationError : HealthcareAPIError)
| Valid (replaced : value).

Definition detail_messages (details : list ValidationDetail) : string :=
  Str.join "; " (map vd_message details).

(** [validate(schema)(req, res, next)], on [req.body]. *)
Definition validate (schema_validate : value -> JoiResult) (stack : string)
    (req : Request) : Validated :=
  let r := schema_validate (req_body req) in
  match joi_error r with
  | Some details =>
      Invalid
        (set_details details
           (set_name "ValidationError"
              (newHealthcareAPIError
                 ("Validation failed: " ++ detail_messages details) 400 stack)))
  | None => Valid (joi_value r)
  end.

(** [validateQuery(schema)(req, res, next)], on [req.query]. *)
Definition validateQuery (schema_validate : value -> JoiResult) (stack : string)
    (req : Request) : Validated :=
  let r := schema_validate (req_query req) in
  match joi_error r with
  | Some details =>
      Invalid
        (set_name "ValidationError"
           (newHealthcareAPIError
              ("Query validation failed: " ++ detail_messages details) 400 stack))
  | None => Valid (joi_value r)
  end.

(** [validateParams(schema)(req, res, next)], on [req.params]. *)
Definition validateParams (schema_validate : value -> JoiResult) (stack : string)
    (req : Request) : Validated :=
  let r := schema_validate (req_params req) in
  match joi_error r with
  | Some details =>
      Invalid
        (set_name "ValidationError"
           (newHealthcareAPIError
              ("Parameter validation failed: " ++ detail_messages details) 400 stack))
  | None => Valid (joi_value r)
  end.

(* ================================================================== *)
(** * The rate limiting middleware (rateLimiter.ts) *)
(* ================================================================== *)

(** The options of a [RateLimiterMemory]. *)
Record Limiter := {
  points : Z;
  duration : Z;
  blockDuration : Z
}.

Module rateLimiters.
Definition general : Limiter := {| points := 100; duration := 60; blockDuration := 60 |}.
Definition auth : Limiter := {| points := 5; duration := 900; blockDuration := 900 |}.
Definition search : Limiter := {| points := 30; duration := 60; blockDuration := 60 |}.
Definition admin : Limiter := {| points := 20; duration := 60; blockDuration := 120 |}.
End rateLimiters.

(** [req.user?.userId] when it is truthy. *)
Definition client_user (req : Request) : option string :=
  match req_user req with
  | Some user => if Str.nonempty (userId user) then Some (userId user) else None
  | None => None
  end.

(** [req.ip || req.connection.remoteAddress || 'unknown']. *)
Definition client_ip (req : Request) : string :=
  or_str (or_opt (req_ip req) (req_remoteAddress req)) "unknown".

(** [getClientId(req)]. *)
Definition getClientId (req : Request) : string :=
  match client_user req with
  | Some userId => "user:" ++ userId
  | None => "ip:" ++ client_ip req
  end.

(** [getRateLimiter(path)]. *)
Definition getRateLimiter (path : string) : Limiter :=
  if Str.includes path "/auth/" then rateLimiters.auth
  else if Str.includes path "/admin/" then rateLimiters.admin
  else if Str.includes path "/search" || Str.includes path "/members"
          || Str.includes path "/providers" then rateLimiters.search
  else rateLimiters.general.

(** The [RateLimiterRes] of a call that was let through. *)
Record RateLimiterRes := {
  remainingPoints : Z;
  msBeforeNext : Z
}.

(** What [consume] rejects with: a [RateLimiterRes], or an error that has
    neither property. The times are whole milliseconds. *)
Record Rejection := {
  rej_remainingPoints : option Z;
  rej_msBeforeNext : option Z
}.

Inductive Consumption :=
| Consumed (res : RateLimiterRes)
| Rejected (rejRes : Rejection).

(** The value of a response header: a number, or the ISO text of the
    instant so many milliseconds after the epoch. *)
Inductive HeaderValue :=
| HNumber (n : Z)
| HInstant (epoch_ms : Z).

(** What the middleware does to the response and the log. *)
Inductive LimitEffect :=
| SetHeaders (headers : list (string * HeaderValue))
| WarnRateLimit (clientId path method : string)
    (remaining msBefore : option Z) (userAgent : value)
| Respond429 (error message : string) (retryAfter : Z)
| PassOn.

(** [n || 0] for a number that may be absent. *)
Definition or_zero (n : option Z) : Z :=
  match n with Some v => v | None => 0%Z end.

(** [Math.round(ms / 1000)] for whole milliseconds: halves go up. *)
Definition round_seconds (ms : Z) : Z := ((ms + 500) / 1000)%Z.

(** [rateLimiter(req, res, next)], over any limiter store [consume];
    [now] is [Date.now()]. *)
Definition rateLimiter {Store : Type}
    (consume : Limiter -> string -> Store -> Consumption * Store)
    (now : Z) (req : Request) (store : Store) : list LimitEffect * Store :=
  let clientId := getClientId req in
  let limiter := getRateLimiter (req_path req) in
  match consume limiter clientId store with
  | (Consumed resRateLimiter, store') =>
      ([ SetHeaders
           [ ("X-RateLimit-Limit", HNumber (points limiter));
             ("X-RateLimit-Remaining", HNumber (remainingPoints resRateLimiter));
             ("X-RateLimit-Reset", HInstant (now + msBeforeNext resRateLimiter)) ];
         PassOn ],
       store')
  | (Rejected error, store') =>
      ([ WarnRateLimit clientId (req_path req) (req_method req)
           (rej_remainingPoints error) (rej_msBeforeNext error)
           (req_get req "user-agent");
         SetHeaders
           [ ("X-RateLimit-Limit", HNumber (points limiter));
             ("X-RateLimit-Remaining", HNumber (or_zero (rej_remainingPoints error)));
             ("X-RateLimit-Reset",
              HInstant (now + or_zero (rej_msBeforeNext error)));
             ("Retry-After",
              HNumber (round_seconds (or_zero (rej_msBeforeNext error)))) ];
         Respond429 "Too Many Requests"
           "Rate limit exceeded. Please try again later."
           (round_seconds (or_zero (rej_msBeforeNext error))) ],
       store')
  end.

(* ================================================================== *)
(** * The rate-limit counter *)
(* ================================================================== *)

(** Modelled from the spec: the window of one rate-limit key
    ([RateLimitWindow]: window-start, consumed-count, block-until; its
    capacity is [points] of the limiter).  The counter the middleware calls,
    [RateLimiterMemory] of the package rate-limiter-flexible, is not part of
    src/.  All times are in milliseconds. *)
Record RateLimitWindow := {
  window_start : Z;
  consumed_count : Z;
  block_until : option Z
}.

(** Modelled from the spec: the counter store of the missing
    [RateLimiterMemory] instances, one window per limiter and key. *)
Definition CounterStore : Type := Limiter -> string -> option RateLimitWindow.

Definition no_windows : CounterStore := fun _ _ => None.

Definition limiter_eqb (a b : Limiter) : bool :=
  ((points a =? points b) && (duration a =? duration b)
   && (blockDuration a =? blockDuration b))%Z.

Definition store_window (store : CounterStore) (l : Limiter) (key : string)
    (win : RateLimitWindow) : CounterStore :=
  fun l' key' =>
    if limiter_eqb l l' && String.eqb key key' then Some win
    else store l' key'.

(** Modelled from the spec: a window nothing was consumed from, opened at
    [now] (the missing counter's state for a key it has not seen, and after
    a block has elapsed). *)
Definition fresh_window (now : Z) : RateLimitWindow :=
  {| window_start := now; consumed_count := 0; block_until := None |}.

(** Modelled from the spec: [now] lies within the window length of the
    category (the missing counter's test for a window that still counts). *)
Definition in_window (now : Z) (l : Limiter) (win : RateLimitWindow) : bool :=
  ((window_start win <=? now)
   && (now <? window_start win + duration l * 1000))%Z.

(** Modelled from the spec: the window a key has at [now] when it is not
    blocked: the stored one while it lasts, else a fresh one (the missing
    counter's state OPEN). *)
Definition open_window (now : Z) (l : Limiter)
    (stored : option RateLimitWindow) : RateLimitWindow :=
  match stored with
  | Some win =>
      match block_until win with
      | Some _ => fresh_window now
      | None => if in_window now l win then win else fresh_window now
      end
  | None => fresh_window now
  end.

(** Modelled from the spec: the block of a key that holds at [now], with
    its expiry: requests are rejected until the timestamp has passed (the
    missing counter's state BLOCKED). *)
Definition blocked_until (now : Z) (stored : option RateLimitWindow) : option Z :=
  match stored with
  | Some win =>
      match block_until win with
      | Some t => if (now <=? t)%Z then Some t else None
      | None => None
      end
  | None => None
  end.

(** Modelled from the spec: [consume(key)] of section 4.2, the missing
    [RateLimiterMemory.consume], at the instant [now].  A blocked key is
    rejected with the original block expiry and nothing changes.  Otherwise
    one more point is counted when the window has one left; when the
    capacity is exceeded the key becomes blocked for the block duration of
    the category.  The call reads and writes the counter in one step. *)
Definition consume_spec (now : Z) (l : Limiter) (key : string)
    (store : CounterStore) : Consumption * CounterStore :=
  match blocked_until now (store l key) with
  | Some t =>
      (Rejected {| rej_remainingPoints := Some 0%Z;
                   rej_msBeforeNext := Some (t - now)%Z |},
       store)
  | None =>
      let win := open_window now l (store l key) in
      if (consumed_count win + 1 <=? points l)%Z
      then (Consumed
              {| remainingPoints := (points l - (consumed_count win + 1))%Z;
                 msBeforeNext := (window_start win + duration l * 1000 - now)%Z |},
            store_window store l key
              {| window_start := window_start win;
                 consumed_count := (consumed_count win + 1)%Z;
                 block_until := None |})
      else (Rejected {| rej_remainingPoints := Some 0%Z;
                        rej_msBeforeNext := Some (blockDuration l * 1000)%Z |},
            store_window store l key
              {| window_start := window_start win;
                 consumed_count := consumed_count win;
                 block_until := Some (now + blockDuration l * 1000)%Z |})
  end.

(** Modelled from the spec: the points a key has left at [now]
    ([remaining] of the missing counter, before a call). *)
Definition remaining_points (now : Z) (l : Limiter) (key : string)
    (store : CounterStore) : Z :=
  match blocked_until now (store l key) with
  | Some _ => 0%Z
  | None => (points l - consumed_count (open_window now l (store l key)))%Z
  end.

(** Requests that are in flight together, in the order in which their
    [limiter.consume(clientId)] calls run: the middleware does not touch the
    counter outside that call, so an interleaving of the requests is an
    order of the calls. *)
Fixpoint serve {Store : Type}
    (consume : Limiter -> string -> Store -> Consumption * Store)
    (now : Z) (reqs : list Request) (store : Store)
    : list (list LimitEffect) * Store :=
  match reqs with
  | [] => ([], store)
  | req :: rest =>
      let '(effects, store') := rateLimiter consume now req store in
      let '(others, store'') := serve consume now rest store' in
      (effects :: others, store'')
  end.

(** The request was handed on to the route. *)
Definition passed (effects : list LimitEffect) : bool :=
  existsb (fun ef => match ef with PassOn => true | _ => false end) effects.

(** The request was answered 429. *)
Definition refused (effects : list LimitEffect) : bool :=
  existsb (fun ef => match ef with Respond429 _ _ _ => true | _ => false end)
    effects.

Definition count_passed (outs : list (list LimitEffect)) : nat :=
  length (filter passed outs).

Definition count_refused (outs : list (list LimitEffect)) : nat :=
  length (filter refused outs).

(* ================================================================== *)
(** * Transactions (config/database.ts) *)
(* ================================================================== *)

(** What [withTransaction] does to the pool and its client. *)
Inductive TxEvent :=
| Connecting
| Sent (statement : string)
| CallbackRun
| Released.

Section Transactions.

(** The pool with its client: any state, any behaviour of [connect], of
    the client's [query] and of the callback. *)
Context {Pool Result : Type}.
Variable pool_connect : Pool -> outcome unit * Pool.
Variable client_query : string -> Pool -> outcome unit * Pool.

Definition Tx (A : Type) : Type := Pool * list TxEvent -> outcome A * (Pool * list TxEvent).

Definition tx_ret {A} (a : A) : Tx A := fun s => (Ret a, s).

Definition tx_throw {A} (e : exn) : Tx A := fun s => (Throw e, s).

Definition tx_bind {A B} (m : Tx A) (k : A -> Tx B) : Tx B :=
  fun s =>
    match m s with
    | (Ret a, s') => k a s'
    | (Throw e, s') => (Throw e, s')
    end.

Definition tx_catch {A} (body : Tx A) (handler : exn -> Tx A) : Tx A :=
  fun s =>
    match body s with
    | (Ret a, s') => (Ret a, s')
    | (Throw e, s') => handler e s'
    end.

(** [try { body } finally { finalizer }]. *)
Definition tx_finally {A} (body : Tx A) (finalizer : Tx unit) : Tx A :=
  fun s =>
    match body s with
    | (o, s') =>
        match finalizer s' with
        | (Ret _, s'') => (o, s'')
        | (Throw e, s'') => (Throw e, s'')
        end
    end.

(** An action on the pool, with the event it leaves. *)
Definition tx_do {A} (ev : TxEvent) (act : Pool -> outcome A * Pool) : Tx A :=
  fun s =>
    let '(o, p') := act (fst s) in (o, (p', snd s ++ [ev])).

(** [client.release()]. *)
Definition tx_release : Tx unit :=
  fun s => (Ret tt, (fst s, snd s ++ [Released])).

(** [withTransaction(callback)]. *)
Definition withTransaction (callback : Pool -> outcome Result * Pool) : Tx Result :=
  tx_bind (tx_do Connecting pool_connect) (fun _ =>
    tx_finally
      (tx_catch
         (tx_bind (tx_do (Sent "BEGIN") (client_query "BEGIN")) (fun _ =>
          tx_bind (tx_do CallbackRun callback) (fun result =>
          tx_bind (tx_do (Sent "COMMIT") (client_query "COMMIT")) (fun _ =>
          tx_ret result))))
         (fun error =>
            tx_bind (tx_do (Sent "ROLLBACK") (client_query "ROLLBACK")) (fun _ =>
            tx_throw error)))
      tx_release).

(** The attempt to roll back after the failure [e]: the error that is
    raised, and the pool. *)
Definition rolled_back (e : exn) (p : Pool) : outcome Result * Pool :=
  match client_query "ROLLBACK" p with
  | (Ret _, p') => (Throw e, p')
  | (Throw e', p') => (Throw e', p')
  end.

End Transactions.

(** The number of times the client was released. *)
Definition releases (events : list TxEvent) : nat :=
  length (filter (fun ev => match ev with Released => true | _ => false end) events).

Definition sent (events : list TxEvent) : list string :=
  flat_map (fun ev => match ev with Sent s => [s] | _ => [] end) events.

(* ================================================================== *)
(** * Facts about strings *)
(* ================================================================== *)

Lemma includes_unfold (h n : string) :
  Str.includes h n =
  if prefix n h then true
  else match h with
       | EmptyString => false
       | String _ rest => Str.includes rest n
       end.
Proof. destruct h; reflexivity. Qed.

Lemma prefix_app_self (n b : string) : prefix n (n ++ b) = true.
Proof.
  induction n as [|c n IH]; simpl.
  - now destruct b.
  - destruct (ascii_dec c c); [assumption | congruence].
Qed.

(** A string contains what it was built around. *)
Lemma includes_mid (a n b : string) : Str.includes (a ++ n ++ b) n = true.
Proof.
  induction a as [|c a IH].
  - simpl. rewrite includes_unfold, prefix_app_self. reflexivity.
  - change (String c a ++ n ++ b)%string with (String c (a ++ n ++ b)).
    rewrite includes_unfold, IH.
    now destruct (prefix n (String c (a ++ n ++ b))).
Qed.

Lemma prefix_app_l (a b h : string) :
  prefix (a ++ b) h = true -> prefix a h = true.
Proof.
  revert h; induction a as [|c a IH]; intros h H.
  - destruct h; reflexivity.
  - destruct h as [|d h]; simpl in *; [discriminate|].
    destruct (ascii_dec c d); [eauto | discriminate].
Qed.

(** A string that contains [a ++ b] contains [a]. *)
Lemma includes_app_l (h a b : string) :
  Str.includes h (a ++ b) = true -> Str.includes h a = true.
Proof.
  induction h as [|c h IH]; intros H; cbn [Str.includes] in *.
  - destruct (prefix (a ++ b) EmptyString) eqn:E; [|discriminate].
    now rewrite (prefix_app_l _ _ _ E).
  - destruct (prefix (a ++ b) (String c h)) eqn:E.
    + now rewrite (prefix_app_l _ _ _ E).
    + rewrite (IH H). now destruct (prefix a (String c h)).
Qed.

Lemma includes_app_l_false (h a b : string) :
  Str.includes h a = false -> Str.includes h (a ++ b) = false.
Proof.
  intros H. destruct (Str.includes h (a ++ b)) eqn:E; [|reflexivity].
  apply includes_app_l in E. congruence.
Qed.

(** A path without [/name] has no [/name/] either. *)
Ltac absent_with_slash H :=
  let H' := fresh in
  pose proof (includes_app_l_false _ _ "/" H) as H';
  cbn [append] in H'; rewrite H'; clear H'.

Lemma string_eqb_neq (a b : string) : a <> b -> String.eqb a b = false.
Proof. intros H. now apply String.eqb_neq. Qed.

(* ================================================================== *)
(** * The request classifier *)
(* ================================================================== *)

(** C9. Action-type classification. For every method and path, in this
    order: a path that contains the login endpoint [/auth/login] is LOGIN
    whatever the method; otherwise a path that contains [/auth/logout] is
    LOGOUT; otherwise GET is SELECT, POST is INSERT, PUT and PATCH are
    UPDATE, DELETE is DELETE, and every other method is ACCESS. *)
Theorem getActionType_classification (method path : string) :
  (Str.includes path "/auth/login" = true ->
   getActionType method path = "LOGIN") /\
  (Str.includes path "/auth/login" = false ->
   Str.includes path "/auth/logout" = true ->
   getActionType method path = "LOGOUT") /\
  (Str.includes path "/auth/login" = false ->
   Str.includes path "/auth/logout" = false ->
   (method = "GET" -> getActionType method path = "SELECT") /\
   (method = "POST" -> getActionType method path = "INSERT") /\
   (method = "PUT" \/ method = "PATCH" -> getActionType method path = "UPDATE") /\
   (method = "DELETE" -> getActionType method path = "DELETE") /\
   (~ In method ["GET"; "POST"; "PUT"; "PATCH"; "DELETE"] ->
    getActionType method path = "ACCESS")).
Proof.
  unfold getActionType.
  split; [|split].
  - intros ->. reflexivity.
  - intros -> ->. reflexivity.
  - intros -> ->.
    repeat split.
    + intros ->. reflexivity.
    + intros ->. reflexivity.
    + intros [-> | ->]; reflexivity.
    + intros ->. reflexivity.
    + intros Hother. simpl in Hother.
      unfold methodMap, assoc.
      repeat match goal with
             | |- context [String.eqb method ?m] =>
                 rewrite (string_eqb_neq method m) by (intros ->; tauto)
             end.
      reflexivity.
Qed.

(** The action of a request is a login action even for a DELETE, and an
    unlisted method on an ordinary path is ACCESS. *)
Example getActionType_examples :
  getActionType "DELETE" "/api/auth/login" = "LOGIN" /\
  getActionType "GET" "/api/auth/logout" = "LOGOUT" /\
  getActionType "PATCH" "/api/plans/7" = "UPDATE" /\
  getActionType "OPTIONS" "/api/plans" = "ACCESS".
Proof. repeat split; reflexivity. Qed.

(** C6, as the code has it. The resource type is chosen by which resource
    names the path contains, with a fixed precedence (members, claims,
    providers, users or auth, admin) and not by the position of a segment:
    a path that contains [/claims] and not [/members] is a CLAIM path
    whatever its first segment is. *)
Theorem getResourceType_precedence (path : string) :
  (Str.includes path "/members" = true -> getResourceType path = "MEMBER") /\
  (Str.includes path "/members" = false ->
   Str.includes path "/claims" = true -> getResourceType path = "CLAIM") /\
  (Str.includes path "/members" = false ->
   Str.includes path "/claims" = false ->
   Str.includes path "/providers" = true -> getResourceType path = "PROVIDER") /\
  (Str.includes path "/members" = false ->
   Str.includes path "/claims" = false ->
   Str.includes path "/providers" = false ->
   Str.includes path "/users" = true \/ Str.includes path "/auth" = true ->
   getResourceType path = "USER") /\
  (Str.includes path "/members" = false ->
   Str.includes path "/claims" = false ->
   Str.includes path "/providers" = false ->
   Str.includes path "/users" = false ->
   Str.includes path "/auth" = false ->
   Str.includes path "/admin" = true -> getResourceType path = "SYSTEM") /\
  (Str.includes path "/members" = false ->
   Str.includes path "/claims" = false ->
   Str.includes path "/providers" = false ->
   Str.includes path "/users" = false ->
   Str.includes path "/auth" = false ->
   Str.includes path "/admin" = false -> getResourceType path = "UNKNOWN") /\
  (forall first rest : string,
     path = ("/providers" ++ first ++ "/claims" ++ rest)%string ->
     getResourceType path = "MEMBER" \/ getResourceType path = "CLAIM").
Proof.
  unfold getResourceType.
  repeat split.
  - intros ->. reflexivity.
  - intros -> ->. reflexivity.
  - intros -> -> ->. reflexivity.
  - intros -> -> -> [-> | ->]; [reflexivity|].
    now rewrite orb_true_r.
  - intros -> -> -> -> -> ->. reflexivity.
  - intros -> -> -> -> -> ->. reflexivity.
  - intros first rest ->.
    assert (Hc : Str.includes ("/providers" ++ first ++ "/claims" ++ rest)%string
                              "/claims" = true)
      by exact (includes_mid ("/providers" ++ first)%string "/claims" rest).
    rewrite Hc.
    destruct (Str.includes _ "/members"); [now left | now right].
Qed.

(** C6, the claim refuted: the first segment of this path is the provider
    segment, a later one names claims, and the path is a CLAIM path. *)
Lemma getResourceType_not_first_segment :
  segments "/providers/42/claims" = ["providers"; "42"; "claims"] /\
  getResourceType "/providers/42/claims" = "CLAIM".
Proof. split; reflexivity. Qed.

(** C2, as the code has it. An authenticated request is always audited,
    whatever its method and path, so the authenticated GET of the claim is
    audited for a path of type UNKNOWN as it is for a MEMBER path; the GET
    on a path of type UNKNOWN is left out of the audit only when the request
    carries no authenticated user. *)
Theorem shouldAudit_gating (req : Request) :
  (req_user req <> None -> shouldAuditRequest req = true) /\
  (req_user req = None ->
   req_method req = "GET" ->
   getResourceType (req_path req) = "UNKNOWN" ->
   shouldAuditRequest req = false).
Proof.
  unfold shouldAuditRequest. split.
  - destruct (req_user req); [reflexivity | congruence].
  - intros -> -> Hty. unfold getResourceType in Hty.
    destruct (Str.includes (req_path req) "/members") eqn:Hm; [discriminate|].
    destruct (Str.includes (req_path req) "/claims") eqn:Hc; [discriminate|].
    destruct (Str.includes (req_path req) "/providers") eqn:Hp; [discriminate|].
    destruct (Str.includes (req_path req) "/users") eqn:Hu; [discriminate|].
    destruct (Str.includes (req_path req) "/auth") eqn:Ha; [discriminate|].
    destruct (Str.includes (req_path req) "/admin") eqn:Hd; [discriminate|].
    absent_with_slash Ha. absent_with_slash Hd.
    cbn [existsb].
    absent_with_slash Hm. absent_with_slash Hc. absent_with_slash Hp.
    reflexivity.
Qed.

(** C2, the claim refuted: an authenticated GET on a path with no auth and
    no admin segment, not PHI-bearing and of type UNKNOWN, is audited. *)
Lemma shouldAudit_authenticated_unknown :
  let req := Sample.request "GET" "/api/plans" [] (Some Sample.analyst) in
  req_method req = "GET" /\
  Str.includes (req_path req) "/auth" = false /\
  Str.includes (req_path req) "/admin" = false /\
  containsPHI req = false /\
  getResourceType (req_path req) = "UNKNOWN" /\
  shouldAuditRequest req = true.
Proof. repeat split; reflexivity. Qed.

(* ================================================================== *)
(** * Running the handlers *)
(* ================================================================== *)

Lemma headers_sent_app (a b : list Event) :
  headers_sent (a ++ b) = headers_sent a || headers_sent b.
Proof. apply existsb_app. Qed.

(** Whether a response has gone out is read off the sends of the trace. *)
Lemma headers_sent_responses (tr : list Event) :
  headers_sent tr = existsb (fun r => valid_status (fst r)) (responses tr).
Proof.
  induction tr as [|ev tr IH]; [reflexivity|].
  destruct ev; cbn [headers_sent existsb responses flat_map app fst];
    fold (headers_sent tr); fold (responses tr); now rewrite IH.
Qed.

Lemma errorResponse_status (env : Env) (error : AppError) (req : Request)
    (t0 t1 : string) :
  fst (errorResponse env error req t0 t1) = fst (classify error).
Proof. unfold errorResponse. now destruct (classify error). Qed.

Lemma send_outcome_returns (sent : bool) (status : Z) :
  send_outcome sent status = Ret tt <->
  sent = false /\ valid_status status = true.
Proof.
  unfold send_outcome. destruct sent, (valid_status status); split;
    try discriminate; try tauto; intros [? ?]; discriminate.
Qed.

Section Runs.

Context {DbState : Type}.
Variable db_query : Query -> DbState -> outcome (list UserRow) * DbState.

(** Every guarded INSERT of the middleware has this shape, and this
    result: it returns normally whatever the store does. *)
Lemma guarded_insert_run (q : Query) (msg : string) (w : World DbState) :
  try_catch (bind (query db_query q) (fun _ => ret tt))
            (fun e => logger_error msg (PExn e)) w
  = (Ret tt, after_attempt db_query q msg w).
Proof.
  unfold try_catch, bind, query, after_attempt, store_attempt,
    logger_error, emit, ret.
  destruct (db_query q (w_db w)) as [[rows | e] db']; simpl.
  - reflexivity.
  - now rewrite <- app_assoc.
Qed.

Lemma logErrorToDatabase_run env error req statusCode (w : World DbState) :
  logErrorToDatabase db_query env error req statusCode w
  = (Ret tt,
     after_attempt db_query
       (InsertSystemError (systemErrorRecord env error req statusCode))
       "Database error logging failed:" w).
Proof. apply guarded_insert_run. Qed.

(** Where nothing has gone out, the two sends are one. *)
Lemma respond_late_unsent (status : Z) (body : ResponseBody) (w : World DbState) :
  headers_sent (w_trace w) = false ->
  respond_late status body w = respond status body w.
Proof. unfold respond_late, respond. now intros ->. Qed.

(** A failed or successful INSERT sends nothing. *)
Lemma attempt_unsent (q : Query) (msg : string) (db : DbState) :
  headers_sent (fst (store_attempt db_query q msg db)) = false.
Proof. unfold store_attempt. now destruct (db_query q db) as [[? | ?] ?]. Qed.

(** The whole run of the error handler: it logs, attempts the INSERT, logs
    again when the store failed, and hands [errorResponse] to the response,
    which decides how the handler ends. *)
Lemma errorHandler_run env error req t0 t1 (w : World DbState) :
  errorHandler db_query env error req t0 t1 w
  = (send_outcome (headers_sent (w_trace w))
       (fst (errorResponse env error req t0 t1)),
     let a := store_attempt db_query
                (InsertSystemError
                   (systemErrorRecord env error req (initialStatus error)))
                "Database error logging failed:" (w_db w) in
     {| w_db := snd a;
        w_user := w_user w;
        w_trace :=
          w_trace w
          ++ Logged LError "API Error:" (PDetails (buildErrorDetails error req t0))
             :: fst a
          ++ [Responded (fst (errorResponse env error req t0 t1))
                        (snd (errorResponse env error req t0 t1))] |}).
Proof.
  unfold errorHandler.
  unfold bind at 1. unfold logger_error at 1, emit. cbn [fst snd].
  unfold bind at 1. unfold try_catch at 1.
  rewrite logErrorToDatabase_run. unfold after_attempt. cbn zeta.
  destruct (errorResponse env error req t0 t1) as [status response].
  unfold respond_late. cbn [w_db w_user w_trace fst snd].
  rewrite !headers_sent_app, attempt_unsent. cbn [headers_sent existsb].
  rewrite !orb_false_r. rewrite <- !app_assoc. reflexivity.
Qed.

Lemma logAuditEvent_run req metadata (w : World DbState) :
  logAuditEvent db_query req metadata w
  = (Ret tt,
     after_attempt db_query (InsertAuditLog (auditRecord req))
       "Failed to insert audit log:" w).
Proof. apply guarded_insert_run. Qed.

Lemma logPHIAccess_run req (w : World DbState) :
  logPHIAccess db_query req w
  = (Ret tt,
     match req_user req with
     | None => w
     | Some user =>
         after_attempt db_query (InsertPhiAccessLog (phiAccessRecord req user))
           "Failed to log PHI access:" w
     end).
Proof.
  unfold logPHIAccess. destruct (req_user req); [|reflexivity].
  apply guarded_insert_run.
Qed.

(** The finish listener returns normally: each of its two steps does. *)
Lemma auditOnFinish_run req metadata (w : World DbState) :
  auditOnFinish db_query req metadata w = (Ret tt, after_audit db_query req w).
Proof.
  unfold auditOnFinish, after_audit, try_catch, bind.
  destruct (shouldAuditRequest req).
  - rewrite logAuditEvent_run.
    destruct (containsPHI req); [|reflexivity].
    rewrite logPHIAccess_run. now destruct (req_user req).
  - cbn [ret].
    destruct (containsPHI req); [|reflexivity].
    rewrite logPHIAccess_run. now destruct (req_user req).
Qed.

End Runs.

(** ** Observations distribute over a trace *)

Lemma responses_app (a b : list Event) :
  responses (a ++ b) = responses a ++ responses b.
Proof. apply flat_map_app. Qed.

Lemma queries_app (a b : list Event) :
  queries (a ++ b) = queries a ++ queries b.
Proof. apply flat_map_app. Qed.

Lemma next_calls_app (a b : list Event) :
  next_calls (a ++ b) = next_calls a + next_calls b.
Proof. unfold next_calls. now rewrite filter_app, length_app. Qed.

Section Attempts.

Context {DbState : Type}.
Variable db_query : Query -> DbState -> outcome (list UserRow) * DbState.
Variables (q : Query) (msg : string) (db : DbState).

Lemma attempt_responses : responses (fst (store_attempt db_query q msg db)) = [].
Proof. unfold store_attempt. now destruct (db_query q db) as [[? | ?] ?]. Qed.

Lemma attempt_queries : queries (fst (store_attempt db_query q msg db)) = [q].
Proof. unfold store_attempt. now destruct (db_query q db) as [[? | ?] ?]. Qed.

Lemma attempt_next_calls : next_calls (fst (store_attempt db_query q msg db)) = 0.
Proof. unfold store_attempt. now destruct (db_query q db) as [[? | ?] ?]. Qed.

Lemma attempt_logged (e : exn) (db' : DbState) :
  db_query q db = (Throw e, db') ->
  In (Logged LError msg (PExn e)) (fst (store_attempt db_query q msg db)).
Proof. unfold store_attempt. intros ->. simpl. auto. Qed.

End Attempts.

Lemma after_attempt_responses {DbState : Type}
    (db_query : Query -> DbState -> outcome (list UserRow) * DbState)
    (q : Query) (msg : string) (w : World DbState) :
  responses (w_trace (after_attempt db_query q msg w)) = responses (w_trace w).
Proof.
  unfold after_attempt. cbn [w_trace].
  now rewrite responses_app, attempt_responses, app_nil_r.
Qed.

Lemma after_attempt_next_calls {DbState : Type}
    (db_query : Query -> DbState -> outcome (list UserRow) * DbState)
    (q : Query) (msg : string) (w : World DbState) :
  next_calls (w_trace (after_attempt db_query q msg w)) = next_calls (w_trace w).
Proof.
  unfold after_attempt. cbn [w_trace].
  now rewrite next_calls_app, attempt_next_calls, Nat.add_0_r.
Qed.

Lemma after_attempt_queries {DbState : Type}
    (db_query : Query -> DbState -> outcome (list UserRow) * DbState)
    (q : Query) (msg : string) (w : World DbState) :
  queries (w_trace (after_attempt db_query q msg w)) = queries (w_trace w) ++ [q].
Proof.
  unfold after_attempt. cbn [w_trace].
  now rewrite queries_app, attempt_queries.
Qed.

Lemma after_audit_responses {DbState : Type}
    (db_query : Query -> DbState -> outcome (list UserRow) * DbState)
    (req : Request) (w : World DbState) :
  responses (w_trace (after_audit db_query req w)) = responses (w_trace w)
  /\ next_calls (w_trace (after_audit db_query req w)) = next_calls (w_trace w).
Proof.
  unfold after_audit.
  destruct (shouldAuditRequest req), (containsPHI req), (req_user req);
    rewrite ?after_attempt_responses, ?after_attempt_next_calls; auto.
Qed.

(* ================================================================== *)
(** * Fail-safe logging *)
(* ================================================================== *)

(** C1. Fail-safe logging, as the code has it. For every error, request
    and store, whatever the store does with the INSERT: the error handler
    makes exactly one call of [res.status(...).json(...)], with
    [errorResponse], and a failure of the INSERT is logged locally.  How the
    handler ends is decided by that call alone: it returns normally exactly
    when no response had gone out before and the classified status is one the
    response accepts (100..999), and it raises otherwise.  Neither what it
    hands to the response nor how it ends depends on the store, so both are
    those of a run whose persistence succeeded.  The finish listener of the
    audit middleware always returns normally, sends nothing, and logs a
    failure of either of its INSERTs (the audit row, the PHI access row)
    locally. *)
Theorem fail_safe_logging {DbState : Type}
    (db_query : Query -> DbState -> outcome (list UserRow) * DbState)
    (env : Env) (error : AppError) (req : Request) (t0 t1 : string)
    (metadata : AuditMetadata) (w : World DbState) :
  (exists w',
     errorHandler db_query env error req t0 t1 w
     = (send_outcome (headers_sent (w_trace w)) (fst (classify error)), w') /\
     responses (w_trace w')
     = responses (w_trace w) ++ [errorResponse env error req t0 t1] /\
     next_calls (w_trace w') = next_calls (w_trace w) /\
     (forall e db',
        db_query (InsertSystemError
                    (systemErrorRecord env error req (initialStatus error)))
                 (w_db w) = (Throw e, db') ->
        In (Logged LError "Database error logging failed:" (PExn e))
           (w_trace w'))) /\
  (fst (errorHandler db_query env error req t0 t1 w) = Ret tt <->
   headers_sent (w_trace w) = false /\
   valid_status (fst (classify error)) = true) /\
  (forall (Db2 : Type)
          (db_query2 : Query -> Db2 -> outcome (list UserRow) * Db2)
          (w2 : World Db2),
     responses (w_trace w2) = responses (w_trace w) ->
     fst (errorHandler db_query2 env error req t0 t1 w2)
     = fst (errorHandler db_query env error req t0 t1 w) /\
     responses (w_trace (snd (errorHandler db_query2 env error req t0 t1 w2)))
     = responses (w_trace (snd (errorHandler db_query env error req t0 t1 w)))) /\
  (exists w',
     auditOnFinish db_query req metadata w = (Ret tt, w') /\
     responses (w_trace w') = responses (w_trace w) /\
     next_calls (w_trace w') = next_calls (w_trace w) /\
     (forall e db',
        shouldAuditRequest req = true ->
        db_query (InsertAuditLog (auditRecord req)) (w_db w) = (Throw e, db') ->
        In (Logged LError "Failed to insert audit log:" (PExn e)) (w_trace w')) /\
     (forall user e db',
        containsPHI req = true ->
        req_user req = Some user ->
        db_query (InsertPhiAccessLog (phiAccessRecord req user))
          (w_db (if shouldAuditRequest req
                 then after_attempt db_query (InsertAuditLog (auditRecord req))
                        "Failed to insert audit log:" w
                 else w))
        = (Throw e, db') ->
        In (Logged LError "Failed to log PHI access:" (PExn e)) (w_trace w'))).
Proof.
  assert (Hresp : forall (D : Type) (dq : Query -> D -> outcome (list UserRow) * D)
                         (v : World D),
             responses (w_trace (snd (errorHandler dq env error req t0 t1 v)))
             = responses (w_trace v) ++ [errorResponse env error req t0 t1]).
  { intros D dq v. rewrite errorHandler_run. cbn [snd w_trace].
    rewrite responses_app. cbn [responses flat_map].
    rewrite responses_app, attempt_responses. cbn [responses flat_map app].
    now destruct (errorResponse env error req t0 t1). }
  assert (Hend : forall (D : Type) (dq : Query -> D -> outcome (list UserRow) * D)
                        (v : World D),
             fst (errorHandler dq env error req t0 t1 v)
             = send_outcome (headers_sent (w_trace v)) (fst (classify error))).
  { intros D dq v. rewrite errorHandler_run. cbn [fst].
    now rewrite errorResponse_status. }
  split; [|split; [|split]].
  - exists (snd (errorHandler db_query env error req t0 t1 w)).
    split; [rewrite <- (Hend _ db_query w); apply surjective_pairing|].
    split; [apply Hresp|].
    rewrite errorHandler_run. cbn [snd]. cbn zeta. cbn [w_trace].
    split.
    + rewrite next_calls_app.
      change (?x :: ?l ++ ?r) with ([x] ++ l ++ r).
      rewrite !next_calls_app, attempt_next_calls. cbn. lia.
    + intros e db' Hfail. apply in_or_app. right. right.
      apply in_or_app. left. eapply attempt_logged. eassumption.
  - rewrite Hend. apply send_outcome_returns.
  - intros Db2 dq2 w2 Hsame. split.
    + now rewrite !Hend, !headers_sent_responses, Hsame.
    + now rewrite !Hresp, Hsame.
  - eexists. split; [apply auditOnFinish_run|].
    destruct (after_audit_responses db_query req w) as [Hr Hn].
    split; [exact Hr | split; [exact Hn | split]].
    + intros e db' Haudit Hfail. unfold after_audit. rewrite Haudit.
      assert (Hin : In (Logged LError "Failed to insert audit log:" (PExn e))
                       (w_trace (after_attempt db_query
                                   (InsertAuditLog (auditRecord req))
                                   "Failed to insert audit log:" w))).
      { unfold after_attempt. cbn [w_trace]. apply in_or_app. right.
        eapply attempt_logged. eassumption. }
      destruct (containsPHI req), (req_user req); try exact Hin.
      unfold after_attempt at 1. cbn [w_trace]. apply in_or_app. now left.
    + intros user e db' Hphi Huser Hfail. unfold after_audit.
      rewrite Hphi, Huser. unfold after_attempt at 1. cbn [w_trace].
      apply in_or_app. right. eapply attempt_logged. eassumption.
Qed.

(** C1, the claim refuted: an error that carries a [statusCode] the
    response refuses, here 0.  Whether the INSERT succeeds or fails, the
    handler raises at its last line, outside every [try], and no response
    goes out. *)
Lemma errorHandler_raises_on_refused_status :
  let env := Sample.env_of (Some "production") in
  let error := Sample.plain_error "Error" "boom" (Some 0%Z) in
  let req := Sample.request "GET" "/api/plans" [] None in
  let raised :=
    Throw (Exn "RangeError [ERR_HTTP_INVALID_STATUS_CODE]: Invalid status code") in
  fst (errorHandler Sample.healthy env error req "t0" "t1" Sample.start) = raised /\
  fst (errorHandler Sample.down env error req "t0" "t1" Sample.start) = raised /\
  headers_sent
    (w_trace (snd (errorHandler Sample.healthy env error req "t0" "t1"
                     Sample.start))) = false /\
  headers_sent
    (w_trace (snd (errorHandler Sample.down env error req "t0" "t1"
                     Sample.start))) = false.
Proof. repeat split; reflexivity. Qed.

(** The error is raised after a response has gone out: the handler raises
    again, whatever the status. *)
Example errorHandler_after_response :
  let env := Sample.env_of (Some "production") in
  let error := Sample.plain_error "Error" "boom" None in
  let req := Sample.request "GET" "/api/plans" [] None in
  let answered :=
    {| w_db := tt; w_user := None;
       w_trace := [Responded 200%Z (SimpleError "partial")] |} in
  fst (errorHandler Sample.healthy env error req "t0" "t1" answered)
  = Throw (Exn "Error [ERR_HTTP_HEADERS_SENT]: Cannot set headers after they are sent to the client").
Proof. reflexivity. Qed.

(** The store is down: the handler logs the failure and answers as usual. *)
Example errorHandler_store_down :
  let env := Sample.env_of (Some "production") in
  let error := Sample.plain_error "Error" "boom" None in
  let req := Sample.request "GET" "/api/plans" [] None in
  errorHandler Sample.down env error req "t0" "t1" Sample.start
  = (Ret tt,
     {| w_db := tt;
        w_user := None;
        w_trace :=
          [ Logged LError "API Error:" (PDetails (buildErrorDetails error req "t0"));
            Queried (InsertSystemError (systemErrorRecord env error req 500));
            Logged LError "Database error logging failed:"
                   (PExn (Exn "connection terminated"));
            Responded 500
              (ErrorEnvelope
                 {| eb_status := 500;
                    eb_message := "Internal server error occurred";
                    eb_timestamp := "t1";
                    eb_stack := None;
                    eb_details := None;
                    eb_requestId := None |}) ] |}).
Proof. reflexivity. Qed.

(* ================================================================== *)
(** * Error classification, severity and masking *)
(* ================================================================== *)

Lemma classify_unnamed_uncoded (error : AppError) :
  unnamed error -> uncoded error ->
  classify error = (initialStatus error, err_message error).
Proof.
  intros (Hv & Hu & Hc) (H5 & H3 & H2). unfold classify.
  rewrite !string_eqb_neq by assumption.
  destruct (err_code error) as [c|]; [|reflexivity].
  rewrite !string_eqb_neq by congruence. reflexivity.
Qed.

Lemma classify_unnamed_code (error : AppError) (c : string) :
  unnamed error -> err_code error = Some c ->
  In c ["23505"; "23503"; "23502"] ->
  classify error =
  if String.eqb c "23505" then (409%Z, "Resource already exists")
  else if String.eqb c "23503" then (400%Z, "Invalid reference to related resource")
  else (400%Z, "Required field is missing").
Proof.
  intros (Hv & Hu & Hc) Hcode Hin. unfold classify.
  rewrite !string_eqb_neq by assumption. rewrite Hcode.
  simpl in Hin. destruct Hin as [<- | [<- | [<- | []]]]; reflexivity.
Qed.

Lemma errorResponse_shape (env : Env) (error : AppError) (req : Request)
    (t0 t1 : string) :
  errorResponse env error req t0 t1
  = (fst (classify error),
     ErrorEnvelope
       {| eb_status := fst (classify error);
          eb_message := maskMessage env (fst (classify error)) (snd (classify error));
          eb_timestamp := t1;
          eb_stack := if env_is (NODE_ENV env) "development"
                      then err_stack error else None;
          eb_details := if env_is (NODE_ENV env) "development"
                        then Some (buildErrorDetails error req t0) else None;
          eb_requestId :=
            if Js.truthy (Js.get (req_headers req) "x-request-id")
            then Some (Js.get (req_headers req) "x-request-id") else None |}).
Proof. unfold errorResponse. now destruct (classify error). Qed.

Lemma getSeverityLevel_bands (statusCode : Z) :
  (500 <= statusCode -> getSeverityLevel statusCode = "HIGH")%Z /\
  (400 <= statusCode < 500 -> getSeverityLevel statusCode = "MEDIUM")%Z /\
  (statusCode < 400 -> getSeverityLevel statusCode = "LOW")%Z.
Proof.
  unfold getSeverityLevel. repeat split; intros H.
  - destruct (Z.leb_spec 500 statusCode); [reflexivity | lia].
  - destruct (Z.leb_spec 500 statusCode); [lia|].
    destruct (Z.leb_spec 400 statusCode); [reflexivity | lia].
  - destruct (Z.leb_spec 500 statusCode); [lia|].
    destruct (Z.leb_spec 400 statusCode); [lia | reflexivity].
Qed.

(** C4, as the code has it. The status of the response is chosen by first
    match: name ValidationError gives 400, UnauthorizedError 401, CastError
    400, code 23505 gives 409 with the message "Resource already exists",
    23503 and 23502 give 400, otherwise the status code the error carries,
    otherwise 500. The row of system_errors is written before that choice
    is made: its severity is HIGH, MEDIUM or LOW by the status code the
    error itself carries (500 when it carries none), at 500 and above, from
    400 to 499, and below 400. *)
Theorem error_classification {DbState : Type}
    (db_query : Query -> DbState -> outcome (list UserRow) * DbState)
    (env : Env) (error : AppError) (req : Request) (t0 t1 : string)
    (w : World DbState) :
  let w' := snd (errorHandler db_query env error req t0 t1 w) in
  exists (status : Z) (body : ErrorBody) (record : SystemErrorRecord),
    responses (w_trace w') = responses (w_trace w) ++ [(status, ErrorEnvelope body)] /\
    eb_status body = status /\
    queries (w_trace w') = queries (w_trace w) ++ [InsertSystemError record] /\
    (err_name error = "ValidationError" -> status = 400%Z) /\
    (err_name error <> "ValidationError" ->
     err_name error = "UnauthorizedError" -> status = 401%Z) /\
    (err_name error <> "ValidationError" ->
     err_name error <> "UnauthorizedError" ->
     err_name error = "CastError" -> status = 400%Z) /\
    (unnamed error -> err_code error = Some "23505" ->
     status = 409%Z /\ eb_message body = "Resource already exists") /\
    (unnamed error -> err_code error = Some "23503" -> status = 400%Z) /\
    (unnamed error -> err_code error = Some "23502" -> status = 400%Z) /\
    (unnamed error -> uncoded error ->
     forall sc, err_statusCode error = Some sc -> status = sc) /\
    (unnamed error -> uncoded error ->
     err_statusCode error = None -> status = 500%Z) /\
    se_severity_level record = getSeverityLevel (initialStatus error) /\
    (500 <= initialStatus error -> se_severity_level record = "HIGH")%Z /\
    (400 <= initialStatus error < 500 -> se_severity_level record = "MEDIUM")%Z /\
    (initialStatus error < 400 -> se_severity_level record = "LOW")%Z.
Proof.
  cbn zeta. rewrite errorHandler_run. cbn [snd w_trace].
  rewrite errorResponse_shape. cbn [fst snd].
  eexists _, _, _.
  split; [|split; [|split]].
  - rewrite responses_app. cbn [responses flat_map].
    rewrite responses_app, attempt_responses. reflexivity.
  - reflexivity.
  - rewrite queries_app. cbn [queries flat_map].
    rewrite queries_app, attempt_queries. reflexivity.
  - cbn [eb_message se_severity_level systemErrorRecord].
    repeat split.
    + intros Hn. unfold classify. now rewrite Hn.
    + intros Hv Hn. unfold classify.
      now rewrite (string_eqb_neq _ _ Hv), Hn.
    + intros Hv Hu Hn. unfold classify.
      now rewrite (string_eqb_neq _ _ Hv), (string_eqb_neq _ _ Hu), Hn.
    + now rewrite (classify_unnamed_code error "23505") by (simpl; auto).
    + rewrite (classify_unnamed_code error "23505") by (simpl; auto).
      cbn. unfold maskMessage. cbn. now rewrite andb_false_r.
    + intros Hn Hc.
      now rewrite (classify_unnamed_code error "23503") by (simpl; auto).
    + intros Hn Hc.
      now rewrite (classify_unnamed_code error "23502") by (simpl; auto).
    + intros Hn Hc sc Hsc. rewrite classify_unnamed_uncoded by assumption.
      unfold initialStatus. now rewrite Hsc.
    + intros Hn Hc Hsc. rewrite classify_unnamed_uncoded by assumption.
      unfold initialStatus. now rewrite Hsc.
    + apply getSeverityLevel_bands.
    + apply getSeverityLevel_bands.
    + apply getSeverityLevel_bands.
Qed.

(** C4, the claim refuted: a validation error that carries no status code
    is answered with 400, and its row is written with severity HIGH. *)
Lemma severity_precedes_classification :
  let error := Sample.plain_error "ValidationError" "age must be a number" None in
  let req := Sample.request "POST" "/api/plans" [] None in
  let w' := snd (errorHandler Sample.healthy (Sample.env_of (Some "production"))
                   error req "t0" "t1" Sample.start) in
  map fst (responses (w_trace w')) = [400%Z] /\
  map query_severity (queries (w_trace w')) = [Some "HIGH"].
Proof. split; reflexivity. Qed.

Lemma env_is_true (e : option string) (mode : string) :
  e = Some mode -> env_is e mode = true.
Proof. intros ->. apply String.eqb_refl. Qed.

Lemma env_is_false (e : option string) (mode : string) :
  e <> Some mode -> env_is e mode = false.
Proof.
  intros H. destruct e as [m|]; [|reflexivity].
  apply string_eqb_neq. congruence.
Qed.

(** C7, as the code has it. The handler sends [errorResponse]. Its message
    is the generic internal-error string when the deployment mode is
    production and the classified status is 500; in every mode other than
    production the message is the classified one, unchanged. The stack
    trace and the handler's [errorDetails], which hold the request body as
    it was received, are in the response in development mode and in no
    other mode. *)
Theorem error_masking {DbState : Type}
    (db_query : Query -> DbState -> outcome (list UserRow) * DbState)
    (env : Env) (error : AppError) (req : Request) (t0 t1 : string)
    (w : World DbState) :
  exists body : ErrorBody,
    responses (w_trace (snd (errorHandler db_query env error req t0 t1 w)))
    = responses (w_trace w) ++ [(fst (classify error), ErrorEnvelope body)] /\
    (NODE_ENV env = Some "production" -> fst (classify error) = 500%Z ->
     eb_message body = "Internal server error occurred") /\
    (NODE_ENV env <> Some "production" ->
     eb_message body = snd (classify error)) /\
    (NODE_ENV env = Some "development" ->
     eb_stack body = err_stack error /\
     eb_details body = Some (buildErrorDetails error req t0) /\
     option_map ed_body (eb_details body) = Some (req_body req)) /\
    (NODE_ENV env <> Some "development" ->
     eb_stack body = None /\ eb_details body = None).
Proof.
  eexists. split.
  - rewrite errorHandler_run. cbn [snd w_trace].
    rewrite errorResponse_shape. cbn [fst snd].
    rewrite responses_app. cbn [responses flat_map].
    rewrite responses_app, attempt_responses. reflexivity.
  - cbn [eb_message eb_stack eb_details]. unfold maskMessage.
    split; [|split; [|split]].
    + intros Hprod H500. now rewrite (env_is_true _ _ Hprod), H500.
    + intros Hother. now rewrite (env_is_false _ _ Hother).
    + intros Hdev. now rewrite (env_is_true _ _ Hdev).
    + intros Hother. now rewrite (env_is_false _ _ Hother).
Qed.

(** C7, the claim refuted: in a deployment mode that is neither development
    nor production, an error of status 500 reaches the client with its own
    message. *)
Lemma unmasked_outside_production :
  let error := Sample.plain_error "Error" "connect ECONNREFUSED 10.0.0.5:5432" None in
  let req := Sample.request "GET" "/api/plans" [] None in
  let response := errorResponse (Sample.env_of (Some "staging")) error req "t0" "t1" in
  fst response = 500%Z /\
  option_map eb_message (response_error response)
  = Some "connect ECONNREFUSED 10.0.0.5:5432".
Proof. split; reflexivity. Qed.

(* ================================================================== *)
(** * PHI access records *)
(* ================================================================== *)

(** C10. A PHI-bearing request without an authenticated user: [logPHIAccess]
    returns at once, without a statement to the store and without a log
    line, and the finish listener writes no PHI access row for it. The same
    request is still audited when its method is a data modification or its
    path an authentication path: the listener then sends exactly the INSERT
    of the audit row. *)
Theorem phi_access_requires_principal {DbState : Type}
    (db_query : Query -> DbState -> outcome (list UserRow) * DbState)
    (req : Request) (metadata : AuditMetadata) (w : World DbState) :
  containsPHI req = true ->
  req_user req = None ->
  logPHIAccess db_query req w = (Ret tt, w) /\
  filter is_phi_insert
    (queries (w_trace (snd (auditOnFinish db_query req metadata w))))
  = filter is_phi_insert (queries (w_trace w)) /\
  (mutating (req_method req) = true \/ Str.includes (req_path req) "/auth/" = true ->
   shouldAuditRequest req = true /\
   queries (w_trace (snd (auditOnFinish db_query req metadata w)))
   = queries (w_trace w) ++ [InsertAuditLog (auditRecord req)]).
Proof.
  intros Hphi Huser.
  rewrite logPHIAccess_run, auditOnFinish_run, Huser. cbn [snd].
  unfold after_audit. rewrite Hphi, Huser.
  split; [reflexivity | split].
  - destruct (shouldAuditRequest req); [|reflexivity].
    rewrite after_attempt_queries, filter_app. cbn. now rewrite app_nil_r.
  - intros Hgate.
    assert (Haudit : shouldAuditRequest req = true).
    { unfold shouldAuditRequest. rewrite Huser.
      destruct Hgate as [Hm | Ha].
      - unfold mutating in Hm. rewrite Hm.
        now destruct (Str.includes (req_path req) "/auth/"),
                     (Str.includes (req_path req) "/admin/").
      - now rewrite Ha. }
    rewrite Haudit. split; [reflexivity|].
    apply after_attempt_queries.
Qed.

(** An unauthenticated POST to a member path: audited, no PHI access row. *)
Lemma phi_access_requires_principal_witness :
  let req := Sample.request "POST" "/api/members" [] None in
  logPHIAccess Sample.healthy req Sample.start = (Ret tt, Sample.start) /\
  queries (w_trace (snd (auditOnFinish Sample.healthy req Sample.metadata
                           Sample.start)))
  = [InsertAuditLog (auditRecord req)].
Proof.
  cbn zeta.
  pose proof (phi_access_requires_principal Sample.healthy
                (Sample.request "POST" "/api/members" [] None)
                Sample.metadata Sample.start eq_refl eq_refl) as (H1 & _ & H3).
  split; [exact H1|].
  exact (proj2 (H3 (or_introl eq_refl))).
Defined.

(* ================================================================== *)
(** * Sanitization *)
(* ================================================================== *)

Section Objects.

Implicit Types (o : object) (k f : string) (v x : value).

Lemma truthy_get_lookup o k :
  Js.truthy (Js.get o k) = true ->
  exists x, Js.lookup k o = Some x /\ Js.truthy x = true.
Proof.
  unfold Js.get. destruct (Js.lookup k o) as [x|]; [eauto | discriminate].
Qed.

Lemma keys_set o k v x :
  Js.lookup k o = Some x -> Js.keys (Js.set k v o) = Js.keys o.
Proof.
  induction o as [|[k' v'] o IH]; simpl; [discriminate|].
  destruct (String.eqb k k'); intros H; simpl; [reflexivity|].
  f_equal. now apply IH.
Qed.

Lemma lookup_set o k v x k' :
  Js.lookup k o = Some x ->
  Js.lookup k' (Js.set k v o)
  = if String.eqb k' k then Some v else Js.lookup k' o.
Proof.
  induction o as [|[k0 v0] o IH]; simpl; [discriminate|].
  destruct (String.eqb_spec k k0) as [-> | Hne]; intros H; simpl.
  - now destruct (String.eqb k' k0).
  - destruct (String.eqb_spec k' k0) as [-> | Hne'].
    + now rewrite string_eqb_neq by congruence.
    + now apply IH.
Qed.

Lemma set_same o k v : Js.lookup k o = Some v -> Js.set k v o = o.
Proof.
  induction o as [|[k0 v0] o IH]; simpl; [discriminate|].
  destruct (String.eqb_spec k k0) as [-> | Hne]; intros H.
  - now inversion H.
  - f_equal. now apply IH.
Qed.

(** One step of the loop keeps every property name in place. *)
Lemma keys_redact_field o f : Js.keys (redact_field o f) = Js.keys o.
Proof.
  unfold redact_field. destruct (Js.truthy (Js.get o f)) eqn:Ht; [|reflexivity].
  destruct (truthy_get_lookup _ _ Ht) as (x & Hx & _).
  eapply keys_set; eassumption.
Qed.

(** One step of the loop replaces the truthy value of its field and
    nothing else. *)
Lemma lookup_redact_field o f k :
  Js.lookup k (redact_field o f)
  = match Js.lookup k o with
    | Some v => Some (if String.eqb k f && Js.truthy v then REDACTED else v)
    | None => None
    end.
Proof.
  unfold redact_field. destruct (Js.truthy (Js.get o f)) eqn:Ht.
  - destruct (truthy_get_lookup _ _ Ht) as (x & Hx & Tx).
    rewrite (lookup_set _ _ _ _ k Hx).
    destruct (String.eqb_spec k f) as [-> | Hne].
    + now rewrite Hx, Tx.
    + now destruct (Js.lookup k o).
  - destruct (String.eqb_spec k f) as [-> | Hne].
    + unfold Js.get in Ht. destruct (Js.lookup f o) as [v|]; [|reflexivity].
      now rewrite Ht.
    + now destruct (Js.lookup k o).
Qed.

Lemma keys_redact fields o : Js.keys (redact fields o) = Js.keys o.
Proof.
  unfold redact. revert o.
  induction fields as [|f fields IH]; intros o; simpl; [reflexivity|].
  now rewrite IH, keys_redact_field.
Qed.

(** The loop replaces the truthy values of the listed fields by the marker
    and leaves every other value as it was. *)
Lemma lookup_redact fields o k :
  Js.lookup k (redact fields o)
  = match Js.lookup k o with
    | Some v =>
        Some (if existsb (String.eqb k) fields && Js.truthy v then REDACTED else v)
    | None => None
    end.
Proof.
  unfold redact. revert o.
  induction fields as [|f fields IH]; intros o; simpl.
  - now destruct (Js.lookup k o).
  - rewrite IH, lookup_redact_field.
    destruct (Js.lookup k o) as [v|]; [|reflexivity].
    f_equal.
    destruct (String.eqb k f), (Js.truthy v) eqn:Tv; simpl;
      rewrite ?Tv, ?andb_false_r, ?andb_true_r; try reflexivity.
    now destruct (existsb (String.eqb k) fields).
Qed.

(** The loop changes nothing when every listed field is falsy or already
    the marker. *)
Lemma redact_fixed fields o :
  (forall f, In f fields ->
     Js.truthy (Js.get o f) = true -> Js.lookup f o = Some REDACTED) ->
  redact fields o = o.
Proof.
  unfold redact. induction fields as [|f fields IH]; intros H; simpl;
    [reflexivity|].
  assert (Hstep : redact_field o f = o).
  { unfold redact_field. destruct (Js.truthy (Js.get o f)) eqn:Ht; [|reflexivity].
    apply set_same, H; [now left | assumption]. }
  rewrite Hstep. apply IH. intros g Hg. apply H. now right.
Qed.

Lemma existsb_eqb_In k fields :
  In k fields -> existsb (String.eqb k) fields = true.
Proof.
  intros H. apply existsb_exists. exists k. split; [assumption|].
  apply String.eqb_refl.
Qed.

Lemma redact_idempotent fields o :
  redact fields (redact fields o) = redact fields o.
Proof.
  apply redact_fixed. intros f Hf. unfold Js.get.
  rewrite lookup_redact, (existsb_eqb_In _ _ Hf).
  destruct (Js.lookup f o) as [v|]; [|discriminate].
  simpl. destruct (Js.truthy v) eqn:Tv; [reflexivity|].
  intros Hv. congruence.
Qed.

End Objects.

(** C8, as the code has it. Sanitizing a request snapshot or a header
    capture twice is sanitizing it once. On an object the sanitizer keeps
    every property name in its place, removes none and adds none; the value
    of a top-level sensitive field (password, ssn, social_security_number,
    token, apiKey in a snapshot; authorization, cookie, x-api-key in the
    headers) is replaced by the fixed marker when it is truthy, and is left
    as it is when it is falsy (an empty string, zero, false, null); every
    other value is unchanged. *)
Theorem sanitization :
  (forall data, sanitizeRequestData (sanitizeRequestData data)
                = sanitizeRequestData data) /\
  (forall headers, sanitizeHeaders (sanitizeHeaders headers)
                   = sanitizeHeaders headers) /\
  (forall o : object,
     exists o' : object,
       sanitizeRequestData (VObj o) = VObj o' /\
       Js.keys o' = Js.keys o /\
       forall k,
         Js.lookup k o'
         = match Js.lookup k o with
           | Some v =>
               Some (if existsb (String.eqb k) sensitiveFields && Js.truthy v
                     then REDACTED else v)
           | None => None
           end) /\
  (forall o : object,
     exists o' : object,
       sanitizeHeaders (VObj o) = VObj o' /\
       Js.keys o' = Js.keys o /\
       forall k,
         Js.lookup k o'
         = match Js.lookup k o with
           | Some v =>
               Some (if existsb (String.eqb k) sensitiveHeaders && Js.truthy v
                     then REDACTED else v)
           | None => None
           end).
Proof.
  split; [|split; [|split]].
  - intros data. unfold sanitizeRequestData.
    destruct (Js.truthy data) eqn:Td; cbn [negb].
    + cbn [Js.truthy negb Js.spread]. now rewrite redact_idempotent.
    + now rewrite Td.
  - intros headers. unfold sanitizeHeaders. cbn [Js.spread].
    now rewrite redact_idempotent.
  - intros o. exists (redact sensitiveFields o).
    split; [reflexivity | split; [apply keys_redact | apply lookup_redact]].
  - intros o. exists (redact sensitiveHeaders o).
    split; [reflexivity | split; [apply keys_redact | apply lookup_redact]].
Qed.

(** C8, the claim refuted: a password field that holds the empty string
    keeps it. *)
Lemma falsy_sensitive_field_kept :
  let data := VObj [("username", VStr "jo"); ("password", VStr EmptyString)] in
  existsb (String.eqb "password") sensitiveFields = true /\
  sanitizeRequestData data = data /\
  Js.opt_get (sanitizeRequestData data) "password" = VStr EmptyString.
Proof. repeat split; reflexivity. Qed.

(** What the sanitizer does to a usual login body and its headers. *)
Example sanitization_examples :
  sanitizeRequestData
    (VObj [("username", VStr "jo"); ("password", VStr "hunter2");
           ("profile", VObj [("token", VStr "nested")])])
  = VObj [("username", VStr "jo"); ("password", REDACTED);
          ("profile", VObj [("token", VStr "nested")])] /\
  sanitizeHeaders
    (VObj [("authorization", VStr "Bearer abc"); ("accept", VStr "*/*")])
  = VObj [("authorization", REDACTED); ("accept", VStr "*/*")].
Proof. split; reflexivity. Qed.

(* ================================================================== *)
(** * Token authentication and the last-activity update *)
(* ================================================================== *)

(** C5, as the code has it. A request carries a token that verifies and
    names an existing active identity. The update of the last activity
    stands inside the [try] block of the verification: when it raises,
    [authenticateToken] raises nothing itself, logs the failure, does not
    pass control to the handler and answers 403 "Invalid token", with
    [req.user] already assigned. When the update succeeds, control passes
    to the handler and no response is sent. *)
Theorem last_activity_update {DbState : Type}
    (db_query : Query -> DbState -> outcome (list UserRow) * DbState)
    (jwt_verify : string -> string -> outcome value)
    (env : Env) (req : Request) (token : string) (decoded uid : value)
    (user : UserRow) (others : list UserRow)
    (w : World DbState) (db1 : DbState) :
  bearerToken (Js.get (req_headers req) "authorization") = Ret (Some token) ->
  Str.nonempty token = true ->
  jwt_verify token (or_str (JWT_SECRET env) "healthcare-secret") = Ret decoded ->
  prop decoded "userId" = Ret uid ->
  db_query (SelectUser uid) (w_db w) = (Ret (user :: others), db1) ->
  (forall (e : exn) (db2 : DbState),
     db_query (UpdateLastActivity (row_user_id user)) db1 = (Throw e, db2) ->
     authenticateToken db_query jwt_verify env req w
     = (Ret tt,
        {| w_db := db2;
           w_user := Some (userOfRow user);
           w_trace :=
             w_trace w
             ++ [ Queried (SelectUser uid);
                  Queried (UpdateLastActivity (row_user_id user));
                  Logged LError "Token verification failed:" (PExn e);
                  AuditLogged "AUTHENTICATION_FAILED" None (exn_message e);
                  Responded 403 (SimpleError "Invalid token") ] |})) /\
  (forall (rows : list UserRow) (db2 : DbState),
     db_query (UpdateLastActivity (row_user_id user)) db1 = (Ret rows, db2) ->
     authenticateToken db_query jwt_verify env req w
     = (Ret tt,
        {| w_db := db2;
           w_user := Some (userOfRow user);
           w_trace :=
             w_trace w
             ++ [ Queried (SelectUser uid);
                  Queried (UpdateLastActivity (row_user_id user));
                  NextCalled ] |})).
Proof.
  intros Hheader Htoken Hverify Huid Hselect.
  assert (Hstart :
    authenticateToken db_query jwt_verify env req w
    = try_catch
        (bind (query db_query (UpdateLastActivity (row_user_id user)))
              (fun _ => next))
        (fun error =>
           bind (logger_error "Token verification failed:" (PExn error))
             (fun _ =>
                bind (emit (AuditLogged "AUTHENTICATION_FAILED" None
                              (exn_message error)))
                  (fun _ => respond 403 (SimpleError "Invalid token"))))
        {| w_db := db1;
           w_user := Some (userOfRow user);
           w_trace := w_trace w ++ [Queried (SelectUser uid)] |}).
  { unfold authenticateToken.
    unfold bind at 1. unfold lift at 1. rewrite Hheader.
    unfold or_opt. rewrite Htoken.
    unfold try_catch, bind, lift, query, set_user.
    rewrite Hverify, Huid, Hselect. reflexivity. }
  rewrite Hstart. clear Hstart.
  unfold try_catch, bind, query, next, respond, logger_error, emit.
  cbn [w_db w_user w_trace].
  split.
  - intros e db2 ->. cbn [w_db w_user w_trace].
    rewrite <- !app_assoc. reflexivity.
  - intros rows db2 ->. cbn [w_db w_user w_trace].
    rewrite <- !app_assoc. reflexivity.
Qed.

(** A verified token of the active user [u-1], on a store that refuses the
    update: the request is answered 403. *)
Lemma last_activity_update_witness :
  let req := Sample.request "GET" "/api/plans"
               [("authorization", VStr "Bearer abc.def.ghi")] None in
  authenticateToken Sample.down Sample.verify (Sample.env_of None) req Sample.start
  = (Ret tt,
     {| w_db := tt;
        w_user := Some (userOfRow Sample.alice);
        w_trace :=
          [ Queried (SelectUser (VStr "u-1"));
            Queried (UpdateLastActivity "u-1");
            Logged LError "Token verification failed:"
                   (PExn (Exn "connection terminated"));
            AuditLogged "AUTHENTICATION_FAILED" None "connection terminated";
            Responded 403 (SimpleError "Invalid token") ] |}).
Proof.
  exact (proj1
           (last_activity_update Sample.down Sample.verify (Sample.env_of None)
              (Sample.request "GET" "/api/plans"
                 [("authorization", VStr "Bearer abc.def.ghi")] None)
              "abc.def.ghi" (VObj [("userId", VStr "u-1")]) (VStr "u-1")
              Sample.alice [] Sample.start tt
              eq_refl eq_refl eq_refl eq_refl eq_refl)
           (Exn "connection terminated") tt eq_refl).
Defined.

(** C5, the claim refuted: the token verifies, the identity exists and is
    active, the update raises; the handler is not called and the response
    is 403. *)
Lemma last_activity_failure_fails_request :
  let req := Sample.request "GET" "/api/plans"
               [("authorization", VStr "Bearer abc.def.ghi")] None in
  let w' := snd (authenticateToken Sample.down Sample.verify (Sample.env_of None)
                   req Sample.start) in
  Sample.verify "abc.def.ghi" "healthcare-secret"
  = Ret (VObj [("userId", VStr "u-1")]) /\
  Sample.down (SelectUser (VStr "u-1")) tt = (Ret [Sample.alice], tt) /\
  next_calls (w_trace w') = 0 /\
  responses (w_trace w') = [(403%Z, SimpleError "Invalid token")].
Proof. repeat split; reflexivity. Qed.

(** The same request on a store that accepts the update reaches the
    handler. *)
Example authenticateToken_healthy :
  let req := Sample.request "GET" "/api/plans"
               [("authorization", VStr "Bearer abc.def.ghi")] None in
  authenticateToken Sample.healthy Sample.verify (Sample.env_of None) req
    Sample.start
  = (Ret tt,
     {| w_db := tt;
        w_user := Some (userOfRow Sample.alice);
        w_trace := [ Queried (SelectUser (VStr "u-1"));
                     Queried (UpdateLastActivity "u-1");
                     NextCalled ] |}).
Proof. reflexivity. Qed.

(* ================================================================== *)
(** * Character classes and fixed-length runs *)
(* ================================================================== *)

Lemma take_class_inv (p : ascii -> bool) (n : nat) (s a b : string) :
  take_class p n s = Some (a, b) ->
  s = (a ++ b)%string /\ String.length a = n /\ all_chars p a = true.
Proof.
  revert s a b. induction n as [|n IH]; intros s a b H; simpl in H.
  - inversion H; subst. auto.
  - destruct s as [|c s]; [discriminate|].
    destruct (p c) eqn:Hc; [|discriminate].
    destruct (take_class p n s) as [[a' b']|] eqn:Ht; [|discriminate].
    inversion H; subst. destruct (IH _ _ _ Ht) as (-> & Hlen & Hall).
    simpl. rewrite Hc, Hall, Hlen. auto.
Qed.

Lemma take_class_app (p : ascii -> bool) (a b : string) :
  all_chars p a = true ->
  take_class p (String.length a) (a ++ b) = Some (a, b).
Proof.
  induction a as [|c a IH]; simpl; intros H; [reflexivity|].
  apply andb_true_iff in H as [Hc Ha]. now rewrite Hc, IH.
Qed.

Lemma all_chars_app (p : ascii -> bool) (a b : string) :
  all_chars p (a ++ b) = all_chars p a && all_chars p b.
Proof.
  induction a as [|c a IH]; simpl; [reflexivity|].
  now rewrite IH, andb_assoc.
Qed.

Lemma length_app_string (a b : string) :
  String.length (a ++ b) = String.length a + String.length b.
Proof. induction a as [|c a IH]; simpl; [reflexivity | now rewrite IH]. Qed.

Lemma chars_app (a b : string) :
  list_ascii_of_string (a ++ b)
  = list_ascii_of_string a ++ list_ascii_of_string b.
Proof. induction a as [|c a IH]; simpl; [reflexivity | now rewrite IH]. Qed.

Lemma append_empty_r (s : string) : (s ++ EmptyString)%string = s.
Proof. induction s as [|c s IH]; simpl; [reflexivity | now rewrite IH]. Qed.

Lemma append_assoc_string (a b c : string) :
  ((a ++ b) ++ c)%string = (a ++ b ++ c)%string.
Proof. induction a as [|x a IH]; simpl; [reflexivity | now rewrite IH]. Qed.

Lemma is_end_true (s : string) : is_end s = true -> s = EmptyString.
Proof. now destruct s. Qed.

Lemma is_digit_value (c : ascii) :
  is_digit c = true -> (0 <= digit_value c <= 9)%Z.
Proof.
  unfold is_digit, digit_value. intros H.
  apply andb_true_iff in H as [H1 H2].
  apply Nat.leb_le in H1, H2. lia.
Qed.

Lemma digit_value_inj (c d : ascii) :
  is_digit c = true -> is_digit d = true ->
  digit_value c = digit_value d -> c = d.
Proof.
  unfold is_digit, digit_value. intros Hc Hd H.
  apply andb_true_iff in Hc as [Hc1 Hc2]. apply andb_true_iff in Hd as [Hd1 Hd2].
  apply Nat.leb_le in Hc1, Hc2, Hd1, Hd2.
  assert (Hn : nat_of_ascii c = nat_of_ascii d) by lia.
  rewrite <- (ascii_nat_embedding c), <- (ascii_nat_embedding d). now rewrite Hn.
Qed.

(* ================================================================== *)
(** * The NPI check digit *)
(* ================================================================== *)

Lemma luhn_term_range (alternate : bool) (n : Z) :
  (0 <= n <= 9 -> 0 <= luhn_term alternate n <= 9)%Z.
Proof.
  unfold luhn_term. intros H. destruct alternate; [|lia].
  destruct (Z.ltb_spec 9 (n * 2)); [|lia].
  Z.div_mod_to_equations. lia.
Qed.

Lemma luhn_term_inj (alternate : bool) (n m : Z) :
  (0 <= n <= 9)%Z -> (0 <= m <= 9)%Z ->
  luhn_term alternate n = luhn_term alternate m -> n = m.
Proof.
  unfold luhn_term. intros Hn Hm. destruct alternate; [|lia].
  destruct (Z.ltb_spec 9 (n * 2)), (Z.ltb_spec 9 (m * 2));
    Z.div_mod_to_equations; lia.
Qed.

(** On digits that are numbers the loop computes [luhn_sum]. *)
Lemma luhn_loop_sum (l : list Z) (s : Z) (alternate : bool) :
  luhn_loop (map Some l) (Some s) alternate = Some (s + luhn_sum l alternate)%Z.
Proof.
  revert s alternate. induction l as [|n l IH]; intros s alternate; simpl.
  - f_equal. lia.
  - rewrite IH. f_equal. lia.
Qed.

Lemma luhn_sum_app (x y : list Z) (alternate : bool) :
  luhn_sum (x ++ y) alternate
  = (luhn_sum x alternate + luhn_sum y (flag_after x alternate))%Z.
Proof.
  revert alternate. induction x as [|n x IH]; intros alternate.
  - reflexivity.
  - cbn [app luhn_sum]. rewrite IH. unfold flag_after. cbn [length].
    rewrite Nat.even_succ, <- Nat.negb_even.
    destruct (Nat.even (length x)); cbn [negb]; rewrite ?negb_involutive; lia.
Qed.

Lemma Number_chars_digits (s : string) :
  all_chars is_digit s = true ->
  map Number_char (list_ascii_of_string s)
  = map Some (map digit_value (list_ascii_of_string s)).
Proof.
  induction s as [|c s IH]; simpl; intros H; [reflexivity|].
  apply andb_true_iff in H as [Hc Hs].
  unfold Number_char at 1. rewrite Hc, IH by assumption. reflexivity.
Qed.

(** On a string of digits the checksum is [luhn_sum] of the digits, last
    digit first, modulo ten. *)
Lemma validateNPIChecksum_digits (s : string) :
  all_chars is_digit s = true ->
  validateNPIChecksum s
  = (luhn_sum (rev (map digit_value (list_ascii_of_string s))) false mod 10 =? 0)%Z.
Proof.
  intros H. unfold validateNPIChecksum.
  rewrite Number_chars_digits, <- map_rev, luhn_loop_sum by assumption.
  reflexivity.
Qed.

Lemma prefix_zero (c : ascii) (s : string) :
  prefix "0" (String c s) = Ascii.eqb c "0".
Proof.
  cbn [prefix]. destruct (ascii_dec "0" c) as [<- | Hne].
  - now destruct s.
  - destruct (Ascii.eqb_spec c "0"); congruence.
Qed.

Lemma NPI_test_inv (s : string) :
  NPI_test s = true ->
  String.length s = 10 /\ all_chars is_digit s = true /\ prefix "0" s = false.
Proof.
  unfold NPI_test. destruct s as [|c s]; [discriminate|]. intros H.
  apply andb_true_iff in H as [H Ht]. apply andb_true_iff in H as [Hd H0].
  destruct (take_class is_digit 9 s) as [[a r]|] eqn:E; [|discriminate].
  apply is_end_true in Ht. subst r.
  destruct (take_class_inv _ _ _ _ _ E) as (-> & Hlen & Hall).
  repeat split.
  - simpl. rewrite length_app_string, Hlen. reflexivity.
  - simpl. rewrite Hd, all_chars_app, Hall. reflexivity.
  - rewrite prefix_zero. now apply negb_true_iff in H0.
Qed.

Lemma NPI_test_intro (s : string) :
  String.length s = 10 -> all_chars is_digit s = true -> prefix "0" s = false ->
  NPI_test s = true.
Proof.
  destruct s as [|c s]; [discriminate|]. intros Hlen Hall H0.
  rewrite prefix_zero in H0. cbn [NPI_test all_chars String.length] in *.
  apply andb_true_iff in Hall as [Hc Hs]. rewrite Hc, H0. cbn [negb andb].
  injection Hlen as Hlen.
  rewrite <- (append_empty_r s) at 1.
  rewrite <- Hlen, take_class_app by assumption. reflexivity.
Qed.

(** Two strings of digits that differ in one place never both pass the
    checksum. *)
Lemma luhn_substitution (a b : string) (d d' : ascii) :
  all_chars is_digit (a ++ String d b) = true ->
  all_chars is_digit (a ++ String d' b) = true ->
  d <> d' ->
  validateNPIChecksum (a ++ String d b) = true ->
  validateNPIChecksum (a ++ String d' b) = false.
Proof.
  intros Hall Hall' Hne.
  rewrite !validateNPIChecksum_digits by assumption.
  rewrite !chars_app. cbn [list_ascii_of_string].
  rewrite !map_app. cbn [map]. rewrite !rev_app_distr. cbn [rev].
  rewrite !luhn_sum_app. cbn [luhn_sum].
  set (X := rev (map digit_value (list_ascii_of_string b))).
  set (Y := rev (map digit_value (list_ascii_of_string a))).
  assert (Hflag : flag_after (X ++ [digit_value d]) false
                  = flag_after (X ++ [digit_value d']) false).
  { unfold flag_after. now rewrite !length_app. }
  rewrite Hflag.
  set (S1 := luhn_sum X false).
  set (S2 := luhn_sum Y (flag_after (X ++ [digit_value d']) false)).
  rewrite all_chars_app in Hall, Hall'. cbn [all_chars] in Hall, Hall'.
  apply andb_true_iff in Hall as [_ Hd]. apply andb_true_iff in Hd as [Hd _].
  apply andb_true_iff in Hall' as [_ Hd']. apply andb_true_iff in Hd' as [Hd' _].
  pose proof (is_digit_value _ Hd) as Rd.
  pose proof (is_digit_value _ Hd') as Rd'.
  pose proof (luhn_term_range (flag_after X false) _ Rd) as Rt.
  pose proof (luhn_term_range (flag_after X false) _ Rd') as Rt'.
  assert (Hterm : luhn_term (flag_after X false) (digit_value d)
                  <> luhn_term (flag_after X false) (digit_value d')).
  { intros E. apply luhn_term_inj in E; [|assumption..].
    apply Hne. now apply digit_value_inj. }
  intros H. apply Z.eqb_eq in H. apply Z.eqb_neq. intros H'.
  Z.div_mod_to_equations. lia.
Qed.

(** X1. A single wrong digit is always caught: when an NPI passes
    [validateNPI], the same string with one character replaced by any other
    character does not. *)
Theorem validateNPI_detects_substitution (a b : string) (d d' : ascii) :
  d <> d' ->
  validateNPI (a ++ String d b) = true ->
  validateNPI (a ++ String d' b) = false.
Proof.
  intros Hne. unfold validateNPI.
  destruct (NPI_test (a ++ String d b)) eqn:T; [|discriminate].
  destruct (NPI_test (a ++ String d' b)) eqn:T'; [|reflexivity].
  cbn [negb].
  apply NPI_test_inv in T as (_ & Hall & _).
  apply NPI_test_inv in T' as (_ & Hall' & _).
  now apply luhn_substitution.
Qed.

(** The NPI 1234567897 passes; with its fourth digit changed it fails. *)
Lemma validateNPI_detects_substitution_witness :
  validateNPI "1234567897" = true /\ validateNPI "1239567897" = false.
Proof.
  split; [reflexivity|].
  apply (validateNPI_detects_substitution "123" "567897" "4" "9");
    [discriminate | reflexivity].
Defined.

Lemma is_digit_of_value (v : Z) :
  (0 <= v <= 9)%Z ->
  is_digit (ascii_of_nat (48 + Z.to_nat v)) = true /\
  digit_value (ascii_of_nat (48 + Z.to_nat v)) = v.
Proof.
  intros H. unfold is_digit, digit_value.
  rewrite nat_ascii_embedding by lia.
  split.
  - apply andb_true_iff. split; apply Nat.leb_le; lia.
  - lia.
Qed.

(** X2. Every nine digits that do not start with zero have exactly one
    check digit: one character that, put after them, makes an NPI that
    [validateNPI] accepts. *)
Theorem NPI_check_digit (p : string) :
  String.length p = 9 ->
  all_chars is_digit p = true ->
  prefix "0" p = false ->
  exists c : ascii,
    is_digit c = true /\
    validateNPI (p ++ String c EmptyString) = true /\
    forall c' : ascii,
      validateNPI (p ++ String c' EmptyString) = true -> c' = c.
Proof.
  intros Hlen Hall H0.
  set (S := luhn_sum (rev (map digit_value (list_ascii_of_string p))) true).
  assert (Hv : (0 <= (- S) mod 10 <= 9)%Z) by (Z.div_mod_to_equations; lia).
  destruct (is_digit_of_value _ Hv) as [Hc Hval].
  set (c := ascii_of_nat (48 + Z.to_nat ((- S) mod 10))) in *.
  assert (Hall' : all_chars is_digit (p ++ String c EmptyString) = true).
  { rewrite all_chars_app, Hall. cbn [all_chars andb]. now rewrite Hc. }
  assert (Hok : validateNPI (p ++ String c EmptyString) = true).
  { unfold validateNPI. rewrite NPI_test_intro; cycle 1.
    - rewrite length_app_string, Hlen. reflexivity.
    - exact Hall'.
    - destruct p as [|c0 p]; [discriminate|].
      change (String c0 p ++ String c EmptyString)%string
        with (String c0 (p ++ String c EmptyString)).
      now rewrite prefix_zero in *.
    - cbn [negb]. rewrite validateNPIChecksum_digits by assumption.
      rewrite chars_app. cbn [list_ascii_of_string].
      rewrite map_app, rev_app_distr. cbn [map rev app luhn_sum luhn_term negb].
      fold S. rewrite Hval. apply Z.eqb_eq.
      Z.div_mod_to_equations. lia. }
  exists c. split; [exact Hc | split; [exact Hok|]].
  intros c' Hok'. destruct (ascii_dec c' c) as [E | Hne]; [exact E|].
  exfalso. unfold validateNPI in Hok, Hok'.
  destruct (NPI_test (p ++ String c EmptyString)) eqn:T; [|discriminate].
  destruct (NPI_test (p ++ String c' EmptyString)) eqn:T'; [|discriminate].
  cbn [negb] in Hok, Hok'.
  apply NPI_test_inv in T' as (_ & Hall'' & _).
  rewrite (luhn_substitution p EmptyString c' c Hall'' Hall' Hne Hok') in Hok.
  discriminate.
Qed.

(** The check digit of 123456789 is 7. *)
Lemma NPI_check_digit_witness :
  exists c : ascii,
    is_digit c = true /\
    validateNPI ("123456789" ++ String c EmptyString) = true /\
    forall c' : ascii,
      validateNPI ("123456789" ++ String c' EmptyString) = true -> c' = c.
Proof.
  exact (NPI_check_digit "123456789" eq_refl eq_refl eq_refl).
Defined.

(* ================================================================== *)
(** * Social security numbers *)
(* ================================================================== *)

Lemma digit_not_dash (c : ascii) : is_digit c = true -> Ascii.eqb c "-" = false.
Proof.
  intros H. destruct (Ascii.eqb_spec c "-") as [-> | ]; [discriminate | reflexivity].
Qed.

Lemma skip_dash_cases (r : string) :
  (skip_dash r = r /\ prefix "-" r = false \/ r = EmptyString /\ skip_dash r = r)
  \/ r = ("-" ++ skip_dash r)%string.
Proof.
  destruct r as [|c r]; [left; right; auto|].
  cbn [skip_dash]. destruct (Ascii.eqb_spec c "-") as [-> | Hne].
  - right. reflexivity.
  - left. left. split; [reflexivity|].
    cbn [prefix]. destruct (ascii_dec "-" c); [congruence | reflexivity].
Qed.

Lemma skip_dash_digits (a b : string) :
  (0 < String.length a)%nat -> all_chars is_digit a = true ->
  skip_dash (a ++ b) = (a ++ b)%string.
Proof.
  destruct a as [|c a]; simpl; [lia|]. intros _ H.
  apply andb_true_iff in H as [Hc _]. now rewrite (digit_not_dash _ Hc).
Qed.

Lemma digits_only_app (a b : string) :
  digits_only (a ++ b) = (digits_only a ++ digits_only b)%string.
Proof.
  induction a as [|c a IH]; simpl; [reflexivity|].
  destruct (is_digit c); simpl; now rewrite IH.
Qed.

Lemma digits_only_dash (a : string) :
  digits_only ("-" ++ a) = digits_only a.
Proof. reflexivity. Qed.

Lemma digits_only_digits (a : string) :
  all_chars is_digit a = true -> digits_only a = a.
Proof.
  induction a as [|c a IH]; simpl; [reflexivity|]. intros H.
  apply andb_true_iff in H as [Hc Ha]. now rewrite Hc, IH.
Qed.

Lemma prefix_same_length (p a b : string) :
  String.length p = String.length a ->
  prefix p (a ++ b) = String.eqb p a.
Proof.
  revert a. induction p as [|c p IH]; intros [|d a] H; try discriminate.
  - simpl. now destruct b.
  - injection H as H.
    change (String d a ++ b)%string with (String d (a ++ b)).
    cbn [prefix String.eqb]. rewrite IH by assumption.
    destruct (ascii_dec c d) as [-> | Hne].
    + now rewrite Ascii.eqb_refl.
    + destruct (Ascii.eqb_spec c d); [congruence | reflexivity].
Qed.

Lemma drop_app (a b : string) : drop (String.length a) (a ++ b) = b.
Proof. induction a as [|c a IH]; simpl; [now destruct b | exact IH]. Qed.

Lemma substring_head (a b : string) :
  substring 0 (String.length a) (a ++ b) = a.
Proof.
  induction a as [|c a IH]; simpl; [now destruct b | now rewrite IH].
Qed.

Lemma substring_skip (a b : string) (m : nat) :
  substring (String.length a) m (a ++ b) = substring 0 m b.
Proof. induction a as [|c a IH]; simpl; [reflexivity | exact IH]. Qed.

(** What [isInvalidSSN] computes on a number written in one of the four
    ways. *)
Lemma isInvalidSSN_parts (area group serial s : string) :
  String.length area = 3 -> String.length group = 2 -> String.length serial = 4 ->
  all_chars is_digit area = true -> all_chars is_digit group = true ->
  all_chars is_digit serial = true ->
  ssn_written area group serial s ->
  isInvalidSSN s
  = existsb (String.eqb (area ++ group ++ serial)) invalidSSNs
    || String.eqb "000" area || String.eqb group "00" || String.eqb serial "0000".
Proof.
  intros La Lg Ls Ha Hg Hs Hw.
  assert (Hclean : digits_only s = (area ++ group ++ serial)%string).
  { destruct Hw as [-> | [-> | [-> | ->]]];
      repeat (rewrite digits_only_dash || rewrite digits_only_app);
      rewrite !digits_only_digits by assumption;
      reflexivity. }
  unfold isInvalidSSN, Str.startsWith. rewrite Hclean.
  rewrite (prefix_same_length "000" area) by (now rewrite La).
  f_equal; [f_equal|].
  - rewrite <- La, substring_skip, <- Lg, substring_head. reflexivity.
  - replace 5 with (String.length (area ++ group)).
    + now rewrite <- append_assoc_string, drop_app.
    + now rewrite length_app_string, La, Lg.
Qed.

Lemma SSN_test_inv (s : string) :
  SSN_test s = true ->
  exists area group serial : string,
    String.length area = 3 /\ String.length group = 2 /\
    String.length serial = 4 /\
    all_chars is_digit area = true /\ all_chars is_digit group = true /\
    all_chars is_digit serial = true /\
    ssn_written area group serial s.
Proof.
  unfold SSN_test. intros H.
  destruct (take_class is_digit 3 s) as [[area r1]|] eqn:E1; [|discriminate].
  destruct (take_class is_digit 2 (skip_dash r1)) as [[group r2]|] eqn:E2;
    [|discriminate].
  destruct (take_class is_digit 4 (skip_dash r2)) as [[serial r3]|] eqn:E3;
    [|discriminate].
  apply is_end_true in H. subst r3.
  destruct (take_class_inv _ _ _ _ _ E1) as (-> & La & Ha).
  destruct (take_class_inv _ _ _ _ _ E2) as (Hr1 & Lg & Hg).
  destruct (take_class_inv _ _ _ _ _ E3) as (Hr2 & Ls & Hs).
  rewrite append_empty_r in Hr2.
  exists area, group, serial. repeat (split; [assumption|]).
  unfold ssn_written.
  destruct (skip_dash_cases r1) as [[[E _] | [E _]] | E],
           (skip_dash_cases r2) as [[[F _] | [F _]] | F];
    try (rewrite E in Hr1; subst r1; discriminate);
    try (rewrite E in Hr1; subst r1);
    try (rewrite Hr1 in E; subst r1);
    try (rewrite F in Hr2; subst r2; discriminate);
    try (rewrite F in Hr2; subst r2);
    try (rewrite Hr2 in F; subst r2);
    auto.
Qed.

Lemma SSN_test_intro (area group serial s : string) :
  String.length area = 3 -> String.length group = 2 -> String.length serial = 4 ->
  all_chars is_digit area = true -> all_chars is_digit group = true ->
  all_chars is_digit serial = true ->
  ssn_written area group serial s ->
  SSN_test s = true.
Proof.
  intros La Lg Ls Ha Hg Hs Hw. unfold SSN_test.
  assert (T1 : forall r, take_class is_digit 3 (area ++ r) = Some (area, r))
    by (intros r; rewrite <- La; now apply take_class_app).
  assert (T2 : forall r, take_class is_digit 2 (group ++ r) = Some (group, r))
    by (intros r; rewrite <- Lg; now apply take_class_app).
  assert (T3 : take_class is_digit 4 serial = Some (serial, EmptyString)).
  { rewrite <- (append_empty_r serial) at 1. rewrite <- Ls.
    now apply take_class_app. }
  assert (S2 : forall r, skip_dash (group ++ r) = (group ++ r)%string)
    by (intros r; apply skip_dash_digits; [lia | assumption]).
  assert (S3 : skip_dash serial = serial).
  { rewrite <- (append_empty_r serial). apply skip_dash_digits; [lia | assumption]. }
  destruct Hw as [-> | [-> | [-> | ->]]]; rewrite T1;
    cbn [append skip_dash Ascii.eqb Bool.eqb];
    rewrite ?S2, T2; cbn [append skip_dash Ascii.eqb Bool.eqb];
    rewrite ?S3, T3; reflexivity.
Qed.

(** X3. [validateSSN] accepts exactly the numbers of three, two and four
    digits, written with or without a dash after the third and after the
    fifth digit, whose area is not 000, whose group is not 00, whose serial
    is not 0000 and whose nine digits are not one of the eleven numbers of
    [invalidSSNs]. *)
Theorem validateSSN_accepts (s : string) :
  validateSSN s = true <->
  exists area group serial : string,
    String.length area = 3 /\ String.length group = 2 /\
    String.length serial = 4 /\
    all_chars is_digit area = true /\ all_chars is_digit group = true /\
    all_chars is_digit serial = true /\
    ssn_written area group serial s /\
    area <> "000" /\ group <> "00" /\ serial <> "0000" /\
    ~ In (area ++ group ++ serial)%string invalidSSNs.
Proof.
  unfold validateSSN. split.
  - intros H. apply andb_true_iff in H as [Ht Hv].
    destruct (SSN_test_inv _ Ht) as
      (area & group & serial & La & Lg & Ls & Ha & Hg & Hs & Hw).
    exists area, group, serial. repeat (split; [assumption|]).
    rewrite (isInvalidSSN_parts area group serial) in Hv by assumption.
    apply negb_true_iff in Hv.
    apply orb_false_iff in Hv as [Hv H4]. apply orb_false_iff in Hv as [Hv H2].
    apply orb_false_iff in Hv as [Hl H3].
    repeat split.
    + intros ->. discriminate.
    + intros ->. discriminate.
    + intros ->. discriminate.
    + intros Hin. apply existsb_eqb_In in Hin. congruence.
  - intros (area & group & serial & La & Lg & Ls & Ha & Hg & Hs & Hw
            & Na & Ng & Ns & Nl).
    rewrite (SSN_test_intro area group serial) by assumption.
    rewrite (isInvalidSSN_parts area group serial) by assumption.
    cbn [andb]. apply negb_true_iff.
    rewrite (string_eqb_neq group "00"), (string_eqb_neq serial "0000"),
      (string_eqb_neq "000" area) by congruence.
    rewrite !orb_false_r.
    destruct (existsb _ invalidSSNs) eqn:E; [|reflexivity].
    exfalso. apply Nl. apply existsb_exists in E as (x & Hx & Heq).
    apply String.eqb_eq in Heq. now subst x.
Qed.

(** A usual number passes written either way; a number of area 000 does
    not. *)
Example validateSSN_examples :
  validateSSN "078-05-1120" = true /\ validateSSN "078051120" = true /\
  validateSSN "078-051120" = true /\ validateSSN "000-12-3456" = false /\
  validateSSN "078-05-112" = false /\ validateSSN "078 05 1120" = false.
Proof. repeat split; reflexivity. Qed.

(* ================================================================== *)
(** * Identifiers read off the path *)
(* ================================================================== *)

Lemma span_inv (p : ascii -> bool) (s a b : string) :
  span p s = (a, b) -> s = (a ++ b)%string /\ all_chars p a = true.
Proof.
  revert a b. induction s as [|c s IH]; intros a b H; simpl in H.
  - inversion H. auto.
  - destruct (p c) eqn:Hc.
    + destruct (span p s) as [a' b'] eqn:E. inversion H; subst.
      destruct (IH _ _ eq_refl) as [-> Ha]. simpl. now rewrite Hc, Ha.
    + inversion H. auto.
Qed.

(** What [id_token] accepts at the head of [s]: a token of digits, or of
    36 characters of the class [[0-9a-f-]], that a slash or the end
    follows. *)
Lemma id_token_inv (s tok : string) :
  id_token s = Some tok ->
  exists after : string,
    s = (tok ++ after)%string /\ at_slash_or_end after = true /\
    ((0 < String.length tok)%nat /\ all_chars is_digit tok = true
     \/ String.length tok = 36 /\ all_chars is_hex_dash tok = true).
Proof.
  unfold id_token. intros H.
  assert (Hdigits :
    (if Str.nonempty (fst (span is_digit s)) && at_slash_or_end (snd (span is_digit s))
     then Some (fst (span is_digit s)) else None) = Some tok ->
    exists after : string,
      s = (tok ++ after)%string /\ at_slash_or_end after = true /\
      ((0 < String.length tok)%nat /\ all_chars is_digit tok = true
       \/ String.length tok = 36 /\ all_chars is_hex_dash tok = true)).
  { destruct (span is_digit s) as [ds rest] eqn:E. cbn [fst snd].
    destruct (Str.nonempty ds && at_slash_or_end rest) eqn:C; [|discriminate].
    intros [= <-]. apply andb_true_iff in C as [Hne Hend].
    destruct (span_inv _ _ _ _ E) as [-> Hall].
    exists rest. repeat split; try assumption.
    left. split; [|assumption]. destruct ds; [discriminate | simpl; lia]. }
  destruct (take_class is_hex_dash 36 s) as [[t rest]|] eqn:E; [|auto].
  destruct (at_slash_or_end rest) eqn:Hend; [|auto].
  injection H as <-.
  destruct (take_class_inv _ _ _ _ _ E) as (-> & Hlen & Hall).
  exists rest. auto.
Qed.

Lemma match_resource_id_inv (s tok : string) :
  match_resource_id s = Some tok ->
  exists before after : string,
    s = (before ++ "/" ++ tok ++ after)%string /\
    at_slash_or_end after = true /\
    ((0 < String.length tok)%nat /\ all_chars is_digit tok = true
     \/ String.length tok = 36 /\ all_chars is_hex_dash tok = true).
Proof.
  induction s as [|c s IH]; [discriminate|]. cbn [match_resource_id].
  assert (Hrest : match_resource_id s = Some tok ->
    exists before after : string,
      String c s = (before ++ "/" ++ tok ++ after)%string /\
      at_slash_or_end after = true /\
      ((0 < String.length tok)%nat /\ all_chars is_digit tok = true
       \/ String.length tok = 36 /\ all_chars is_hex_dash tok = true)).
  { intros H. destruct (IH H) as (before & after & -> & Hend & Hclass).
    exists (String c before), after. auto. }
  destruct (Ascii.eqb_spec c "/") as [-> | Hne]; [|exact Hrest].
  destruct (id_token s) as [t|] eqn:E; [|exact Hrest].
  intros [= <-]. destruct (id_token_inv _ _ E) as (after & -> & Hend & Hclass).
  exists EmptyString, after. auto.
Qed.

(** A character of either class of an identifier is no slash. *)
Lemma id_char_not_slash (c : ascii) :
  is_digit c = true \/ is_hex_dash c = true -> Ascii.eqb c "/" = false.
Proof.
  intros H. destruct (Ascii.eqb_spec c "/") as [-> | ]; [|reflexivity].
  destruct H as [H | H]; discriminate.
Qed.

Lemma split_aux_no_sep (tok rest cur : string) :
  (forall c, In c (list_ascii_of_string tok) -> Ascii.eqb c "/" = false) ->
  Str.split_aux "/" cur (tok ++ rest) = Str.split_aux "/" (cur ++ tok) rest.
Proof.
  revert cur. induction tok as [|c tok IH]; intros cur H.
  - now rewrite append_empty_r.
  - change (String c tok ++ rest)%string with (String c (tok ++ rest)).
    cbn [Str.split_aux]. rewrite (H c) by (now left).
    rewrite IH by (intros d Hd; apply H; now right).
    f_equal. rewrite append_assoc_string. reflexivity.
Qed.

Lemma split_aux_head (cur s : string) :
  at_slash_or_end s = true -> In cur (Str.split_aux "/" cur s).
Proof.
  destruct s as [|c s]; simpl; [auto|]. intros ->. now left.
Qed.

Lemma split_aux_later (before rest cur t : string) :
  In t (Str.split_aux "/" EmptyString rest) ->
  In t (Str.split_aux "/" cur (before ++ "/" ++ rest)).
Proof.
  revert cur. induction before as [|c before IH]; intros cur H.
  - cbn. now right.
  - change (String c before ++ "/" ++ rest)%string
      with (String c (before ++ "/" ++ rest)).
    cbn [Str.split_aux]. destruct (Ascii.eqb c "/"); [right|]; now apply IH.
Qed.

Lemma all_chars_In (p : ascii -> bool) (s : string) (c : ascii) :
  all_chars p s = true -> In c (list_ascii_of_string s) -> p c = true.
Proof.
  induction s as [|d s IH]; simpl; [tauto|]. intros H [<- | Hin].
  - now apply andb_true_iff in H as [H _].
  - apply andb_true_iff in H as [_ H]. auto.
Qed.

(** X4. The resource id of the audit record is a whole segment of the
    path, made of digits only or of 36 characters of the class
    [[0-9a-fA-F-]]. *)
Theorem getResourceId_is_segment (req : Request) (id : string) :
  getResourceId req = Some id ->
  In id (segments (req_path req)) /\
  (all_chars is_digit id = true
   \/ String.length id = 36 /\ all_chars is_hex_dash id = true).
Proof.
  unfold getResourceId. intros H.
  destruct (match_resource_id_inv _ _ H) as (before & after & -> & Hend & Hclass).
  assert (Hslash : forall c, In c (list_ascii_of_string id) ->
                             Ascii.eqb c "/" = false).
  { intros c Hc. apply id_char_not_slash.
    destruct Hclass as [[_ Hall] | [_ Hall]];
      [left | right]; eapply all_chars_In; eassumption. }
  assert (Hne : Str.nonempty id = true).
  { destruct Hclass as [[Hlen _] | [Hlen _]]; destruct id; simpl in *;
      try lia; try discriminate; reflexivity. }
  split.
  - unfold segments, Str.split. apply filter_In. split; [|exact Hne].
    apply split_aux_later.
    rewrite split_aux_no_sep by assumption.
    now apply split_aux_head.
  - destruct Hclass as [[_ Hall] | Hclass]; auto.
Qed.

(** The id of [/api/claims/4711/lines] is its third segment. *)
Lemma getResourceId_is_segment_witness :
  In "4711" (segments "/api/claims/4711/lines") /\
  (all_chars is_digit "4711" = true
   \/ String.length "4711" = 36 /\ all_chars is_hex_dash "4711" = true).
Proof.
  exact (getResourceId_is_segment
           (Sample.request "GET" "/api/claims/4711/lines" [] None) "4711"
           eq_refl).
Defined.

(** What [strip_prefix] takes off is the prefix, up to the case of
    letters. *)
Lemma strip_prefix_inv (p s rest : string) :
  strip_prefix p s = Some rest ->
  exists m, s = (m ++ rest)%string /\
            String.length m = String.length p /\
            strip_prefix p m = Some EmptyString.
Proof.
  revert s. induction p as [|a p IH]; intros s H.
  - destruct s; cbn in H; injection H as <-; exists EmptyString; auto.
  - destruct s as [|b s]; [discriminate|]. cbn [strip_prefix] in H.
    destruct (Ascii.eqb (lower a) (lower b)) eqn:E; [|discriminate].
    destruct (IH _ H) as (m & -> & Hlen & Hm).
    exists (String b m). cbn [strip_prefix String.length append].
    rewrite E, Hlen. auto.
Qed.

(** A match of the pattern: where it stands in the text, and what it
    captures. *)
Lemma match_member_uuid_inv (s tok : string) :
  match_member_uuid s = Some tok ->
  exists before m after,
    s = (before ++ m ++ tok ++ after)%string /\
    String.length m = 9 /\
    strip_prefix "/members/" m = Some EmptyString /\
    String.length tok = 36 /\ all_chars is_hex_dash tok = true.
Proof.
  assert (Hhere : forall s rest t r,
             strip_prefix "/members/" s = Some rest ->
             take_class is_hex_dash 36 rest = Some (t, r) ->
             exists before m after,
               s = (before ++ m ++ t ++ after)%string /\
               String.length m = 9 /\
               strip_prefix "/members/" m = Some EmptyString /\
               String.length t = 36 /\ all_chars is_hex_dash t = true).
  { intros s0 rest t r Hp Ht.
    destruct (strip_prefix_inv _ _ _ Hp) as (m & -> & Hlen & Hm).
    destruct (take_class_inv _ _ _ _ _ Ht) as (-> & Hlt & Hall).
    exists EmptyString, m, r. auto. }
  induction s as [|c s IH]; cbn [match_member_uuid].
  - destruct (strip_prefix "/members/" EmptyString) as [rest|] eqn:Hp;
      [|discriminate].
    destruct (take_class is_hex_dash 36 rest) as [[t r]|] eqn:E; [|discriminate].
    cbn. intros [= <-]. eapply Hhere; eassumption.
  - destruct (strip_prefix "/members/" (String c s)) as [rest|] eqn:Hp.
    + destruct (take_class is_hex_dash 36 rest) as [[t r]|] eqn:E.
      * cbn. intros [= <-]. eapply Hhere; eassumption.
      * cbn. intros H. destruct (IH H) as (before & m & after & -> & Hm).
        exists (String c before), m, after. auto.
    + intros H. destruct (IH H) as (before & m & after & -> & Hm).
      exists (String c before), m, after. auto.
Qed.

Lemma match_member_uuid_here (s rest t r : string) :
  strip_prefix "/members/" s = Some rest ->
  take_class is_hex_dash 36 rest = Some (t, r) ->
  match_member_uuid s = Some t.
Proof.
  intros Hp Ht. destruct s; cbn [match_member_uuid]; now rewrite Hp, Ht.
Qed.

(** The pattern matches wherever [/members/] is followed by 36 characters
    of the class. *)
Lemma match_member_uuid_finds (before id after : string) :
  String.length id = 36 -> all_chars is_hex_dash id = true ->
  exists tok,
    match_member_uuid (before ++ "/members/" ++ id ++ after) = Some tok.
Proof.
  intros Hlen Hall.
  assert (Hhere : strip_prefix "/members/" ("/members/" ++ id ++ after)
                  = Some (id ++ after)%string) by reflexivity.
  pose proof (take_class_app is_hex_dash id after Hall) as Htake.
  rewrite Hlen in Htake.
  induction before as [|c before IH].
  - exists id. exact (match_member_uuid_here _ _ _ _ Hhere Htake).
  - destruct IH as [tok Htok].
    change (String c before ++ "/members/" ++ id ++ after)%string
      with (String c (before ++ "/members/" ++ id ++ after)).
    cbn [match_member_uuid].
    destruct (strip_prefix "/members/"
                (String c (before ++ "/members/" ++ id ++ after)))
      as [rest|].
    + destruct (take_class is_hex_dash 36 rest) as [[t r]|].
      * exists t. reflexivity.
      * exists tok. exact Htok.
    + exists tok. exact Htok.
Qed.

(** X5. The member id a PHI access row takes from the path. When neither
    the route parameters nor the body nor the query string name a member
    id, the id is read off the path.  If one is found, the path reads
    [before ++ m ++ id ++ after], where [m] is [/members/] in any mix of
    upper and lower case and [id] is 36 characters of the class
    [[0-9a-fA-F-]], and it contains [/members/] in lower case.  A path of
    fewer than 45 characters gives no member id.  And an id is found
    whenever the path has [/members/] followed by 36 characters of the
    class, digits included. *)
Theorem getMemberIdFromRequest_from_path (req : Request) :
  Js.truthy (Js.opt_get (req_params req) "memberId") = false ->
  Js.truthy (Js.opt_get (req_body req) "memberId") = false ->
  Js.truthy (Js.opt_get (req_query req) "memberId") = false ->
  (getMemberIdFromRequest req = VUndefined
   \/ exists before m id after : string,
        getMemberIdFromRequest req = VStr id /\
        req_path req = (before ++ m ++ id ++ after)%string /\
        String.length m = 9 /\
        strip_prefix "/members/" m = Some EmptyString /\
        String.length id = 36 /\ all_chars is_hex_dash id = true /\
        Str.includes (req_path req) "/members/" = true) /\
  (String.length (req_path req) < 45 ->
   getMemberIdFromRequest req = VUndefined) /\
  (forall before id after : string,
     req_path req = (before ++ "/members/" ++ id ++ after)%string ->
     String.length id = 36 -> all_chars is_hex_dash id = true ->
     exists tok, getMemberIdFromRequest req = VStr tok).
Proof.
  intros Hparams Hbody Hquery.
  unfold getMemberIdFromRequest. rewrite Hparams, Hbody, Hquery.
  assert (Hfound : forall id,
             match_member_uuid (req_path req) = Some id ->
             exists before m after : string,
               req_path req = (before ++ m ++ id ++ after)%string /\
               String.length m = 9 /\
               strip_prefix "/members/" m = Some EmptyString /\
               String.length id = 36 /\ all_chars is_hex_dash id = true).
  { intros id. apply match_member_uuid_inv. }
  split; [|split].
  - destruct (Str.includes (req_path req) "/members/") eqn:Hin; [|now left].
    destruct (match_member_uuid (req_path req)) as [id|] eqn:E; [|now left].
    right. destruct (Hfound id eq_refl) as (before & m & after & Hpath & H).
    exists before, m, id, after. cbn [Js.of_option]. tauto.
  - intros Hshort.
    destruct (Str.includes (req_path req) "/members/"); [|reflexivity].
    destruct (match_member_uuid (req_path req)) as [id|] eqn:E; [|reflexivity].
    destruct (Hfound id eq_refl) as (before & m & after & Hpath & Hm & _ & Hid & _).
    rewrite Hpath in Hshort.
    rewrite !length_app_string, Hm, Hid in Hshort. lia.
  - intros before id after Hpath Hlen Hall.
    rewrite Hpath, includes_mid.
    destruct (match_member_uuid_finds before id after Hlen Hall) as [tok ->].
    exists tok. reflexivity.
Qed.

(** The path [/api/members/12345] is too short to hold a member id. *)
Lemma getMemberIdFromRequest_from_path_witness :
  getMemberIdFromRequest
    (Sample.request "GET" "/api/members/12345" [] (Some Sample.analyst))
  = VUndefined.
Proof.
  apply (getMemberIdFromRequest_from_path
           (Sample.request "GET" "/api/members/12345" [] (Some Sample.analyst))
           eq_refl eq_refl eq_refl).
  cbn. lia.
Defined.

(** The short numeric id of [/api/members/12345] is the resource id of the
    audit row, and the PHI access row gets no member id; an id of 36 digits
    is both. *)
Example numeric_member_id :
  let short := Sample.request "GET" "/api/members/12345" []
                 (Some Sample.analyst) in
  let long := Sample.request "GET"
                "/api/members/123456789012345678901234567890123456" []
                (Some Sample.analyst) in
  getResourceId short = Some "12345" /\
  getMemberIdFromRequest short = VUndefined /\
  getResourceId long = Some "123456789012345678901234567890123456" /\
  getMemberIdFromRequest long = VStr "123456789012345678901234567890123456".
Proof. repeat split; reflexivity. Qed.

(* ================================================================== *)
(** * Authentication *)
(* ================================================================== *)

(** A trace built by appending events, observed. *)
Ltac observe_trace :=
  cbn [w_trace w_db w_user fst snd];
  rewrite ?responses_app, ?next_calls_app, ?queries_app;
  cbn [responses queries next_calls flat_map filter length app];
  rewrite ?app_nil_r.

Section AuthFacts.

Context {DbState : Type}.
Variable db_query : Query -> DbState -> outcome (list UserRow) * DbState.
Variable jwt_verify : string -> string -> outcome value.
Variable env : Env.

Let secret : string := or_str (JWT_SECRET env) "healthcare-secret".

(** A token that does not verify: the answer is 403 and the store has not
    been asked. *)
Lemma authenticateToken_unverified (req : Request) (w : World DbState)
    (token : string) (e : exn) :
  bearerToken (Js.get (req_headers req) "authorization") = Ret (Some token) ->
  Str.nonempty token = true ->
  jwt_verify token secret = Throw e ->
  authenticateToken db_query jwt_verify env req w
  = (Ret tt,
     {| w_db := w_db w; w_user := w_user w;
        w_trace :=
          w_trace w
          ++ [ Logged LError "Token verification failed:" (PExn e);
               AuditLogged "AUTHENTICATION_FAILED" None (exn_message e);
               Responded 403 (SimpleError "Invalid token") ] |}).
Proof.
  intros Ht Hne Hv. unfold secret in Hv. unfold authenticateToken.
  unfold bind at 1, lift at 1. rewrite Ht. unfold or_opt. rewrite Hne.
  unfold try_catch, bind, lift. rewrite Hv.
  unfold logger_error, respond, emit. cbn [w_db w_user w_trace].
  now rewrite <- !app_assoc.
Qed.

(** X6. How [authenticateToken] turns a request down, and what it has done
    by then. Without a token it answers 401 "Access token required" and
    does nothing else. A token that does not verify is answered 403
    "Invalid token" before the store is asked anything. A failure of the
    user query is answered 403 "Invalid token" as well. A verified token
    whose identity the store does not return is answered 401 "Invalid or
    expired token", with no update of the last activity. In none of these
    cases is [next] called or [req.user] assigned. *)
Theorem authenticateToken_rejections (req : Request) (w : World DbState) :
  let header := Js.get (req_headers req) "authorization" in
  let failed e :=
    [ Logged LError "Token verification failed:" (PExn e);
      AuditLogged "AUTHENTICATION_FAILED" None (exn_message e);
      Responded 403 (SimpleError "Invalid token") ] in
  (forall t,
     bearerToken header = Ret t -> or_opt t None = None ->
     authenticateToken db_query jwt_verify env req w
     = (Ret tt,
        {| w_db := w_db w; w_user := w_user w;
           w_trace := w_trace w
                      ++ [Responded 401 (SimpleError "Access token required")] |})) /\
  (forall token e,
     bearerToken header = Ret (Some token) -> Str.nonempty token = true ->
     jwt_verify token secret = Throw e ->
     authenticateToken db_query jwt_verify env req w
     = (Ret tt,
        {| w_db := w_db w; w_user := w_user w;
           w_trace := w_trace w ++ failed e |})) /\
  (forall token decoded uid e db1,
     bearerToken header = Ret (Some token) -> Str.nonempty token = true ->
     jwt_verify token secret = Ret decoded ->
     prop decoded "userId" = Ret uid ->
     db_query (SelectUser uid) (w_db w) = (Throw e, db1) ->
     authenticateToken db_query jwt_verify env req w
     = (Ret tt,
        {| w_db := db1; w_user := w_user w;
           w_trace := w_trace w ++ Queried (SelectUser uid) :: failed e |})) /\
  (forall token decoded uid db1,
     bearerToken header = Ret (Some token) -> Str.nonempty token = true ->
     jwt_verify token secret = Ret decoded ->
     prop decoded "userId" = Ret uid ->
     db_query (SelectUser uid) (w_db w) = (Ret [], db1) ->
     authenticateToken db_query jwt_verify env req w
     = (Ret tt,
        {| w_db := db1; w_user := w_user w;
           w_trace := w_trace w
                      ++ [ Queried (SelectUser uid);
                           Responded 401 (SimpleError "Invalid or expired token") ] |})).
Proof.
  cbn zeta.
  split; [|split; [|split]].
  - intros t Ht Hnone. unfold authenticateToken.
    unfold bind at 1, lift at 1. rewrite Ht, Hnone. reflexivity.
  - intros token e Ht Hne Hv.
    exact (authenticateToken_unverified req w token e Ht Hne Hv).
  - intros token decoded uid e db1 Ht Hne Hv Hp Hq.
    unfold secret in Hv. unfold authenticateToken.
    unfold bind at 1, lift at 1. rewrite Ht. unfold or_opt. rewrite Hne.
    unfold try_catch, bind, lift, query. rewrite Hv, Hp, Hq.
    unfold logger_error, respond, emit. cbn [w_db w_user w_trace].
    now rewrite <- !app_assoc.
  - intros token decoded uid db1 Ht Hne Hv Hp Hq.
    unfold secret in Hv. unfold authenticateToken.
    unfold bind at 1, lift at 1. rewrite Ht. unfold or_opt. rewrite Hne.
    unfold try_catch, bind, lift, query. rewrite Hv, Hp, Hq.
    unfold respond, emit. cbn [w_db w_user w_trace].
    now rewrite <- !app_assoc.
Qed.

(** With a header that is a string or absent, [authenticateToken] returns
    normally. *)
Lemma authenticateToken_returns (req : Request) (w : World DbState)
    (t : option string) :
  bearerToken (Js.get (req_headers req) "authorization") = Ret t ->
  exists w', authenticateToken db_query jwt_verify env req w = (Ret tt, w').
Proof.
  intros Ht. unfold authenticateToken.
  unfold bind at 1, lift at 1. rewrite Ht.
  destruct (or_opt t None) as [token|]; [|eexists; reflexivity].
  unfold try_catch, bind, lift, query, set_user, next, respond, logger_error, emit.
  destruct (jwt_verify token _) as [decoded|e]; [|eexists; reflexivity].
  destruct (prop decoded "userId") as [uid|e]; [|eexists; reflexivity].
  destruct (db_query (SelectUser uid) (w_db w)) as [[[|user rest]|e] db1];
    try (eexists; reflexivity).
  cbn [w_db w_user w_trace].
  destruct (db_query (UpdateLastActivity (row_user_id user)) db1) as [[rows|e] db2];
    eexists; reflexivity.
Qed.

(** X7. [authenticateToken] decides every request once. For a header that
    is a string or absent it returns normally and either calls [next] once
    and sends nothing, or sends one response, 401 or 403, and does not call
    [next]. It calls [next] only for a token that verified and named a row
    of the store, with [req.user] built from that row. *)
Theorem authenticateToken_decides (req : Request) (w : World DbState)
    (t : option string) :
  bearerToken (Js.get (req_headers req) "authorization") = Ret t ->
  exists w',
    authenticateToken db_query jwt_verify env req w = (Ret tt, w') /\
    ((next_calls (w_trace w') = S (next_calls (w_trace w)) /\
      responses (w_trace w') = responses (w_trace w) /\
      exists token decoded uid user others db1,
        t = Some token /\
        jwt_verify token secret = Ret decoded /\
        prop decoded "userId" = Ret uid /\
        db_query (SelectUser uid) (w_db w) = (Ret (user :: others), db1) /\
        w_user w' = Some (userOfRow user))
     \/
     (next_calls (w_trace w') = next_calls (w_trace w) /\
      exists status message,
        responses (w_trace w')
        = responses (w_trace w) ++ [(status, SimpleError message)] /\
        (status = 401 \/ status = 403)%Z)).
Proof.
  intros Ht. unfold secret, authenticateToken.
  unfold bind at 1, lift at 1. rewrite Ht.
  assert (Htok : forall token, or_opt t None = Some token -> t = Some token).
  { intros token. unfold or_opt. destruct t as [s|]; [|discriminate].
    destruct (Str.nonempty s); [auto | discriminate]. }
  destruct (or_opt t None) as [token|].
  2:{ eexists. split; [reflexivity|]. right. unfold respond, emit.
      observe_trace. split; [lia|]. eexists _, _. split; [reflexivity | auto]. }
  specialize (Htok token eq_refl).
  unfold try_catch, bind, lift, query, set_user, next, respond, logger_error, emit.
  destruct (jwt_verify token _) as [decoded|e] eqn:Hv.
  2:{ eexists. split; [reflexivity|]. right. observe_trace.
      split; [lia|]. eexists _, _. split; [reflexivity | auto]. }
  destruct (prop decoded "userId") as [uid|e] eqn:Hp.
  2:{ eexists. split; [reflexivity|]. right. observe_trace.
      split; [lia|]. eexists _, _. split; [reflexivity | auto]. }
  destruct (db_query (SelectUser uid) (w_db w)) as [[[|user rest]|e] db1] eqn:Hq.
  - eexists. split; [reflexivity|]. right. observe_trace.
    split; [lia|]. eexists _, _. split; [reflexivity | auto].
  - cbn [w_db w_user w_trace].
    destruct (db_query (UpdateLastActivity (row_user_id user)) db1)
      as [[rows|e] db2].
    + eexists. split; [reflexivity|]. left. observe_trace.
      split; [lia|]. split; [reflexivity|].
      exists token, decoded, uid, user, rest, db1. auto.
    + eexists. split; [reflexivity|]. right. observe_trace.
      split; [lia|]. eexists _, _. split; [reflexivity | auto].
  - eexists. split; [reflexivity|]. right. observe_trace.
    split; [lia|]. eexists _, _. split; [reflexivity | auto].
Qed.

(** X8. [optionalAuth] with a token is [authenticateToken]: its [catch]
    is never entered, so a token that does not verify is answered 403 and
    the request does not continue. Without a token it calls [next] and does
    nothing else. *)
Theorem optionalAuth_is_authenticateToken (req : Request) (w : World DbState)
    (t : option string) :
  bearerToken (Js.get (req_headers req) "authorization") = Ret t ->
  (or_opt t None = None ->
   optionalAuth db_query jwt_verify env req w
   = (Ret tt, {| w_db := w_db w; w_user := w_user w;
                 w_trace := w_trace w ++ [NextCalled] |})) /\
  (or_opt t None <> None ->
   optionalAuth db_query jwt_verify env req w
   = authenticateToken db_query jwt_verify env req w) /\
  (forall token e,
     or_opt t None = Some token -> jwt_verify token secret = Throw e ->
     responses (w_trace (snd (optionalAuth db_query jwt_verify env req w)))
     = responses (w_trace w) ++ [(403%Z, SimpleError "Invalid token")] /\
     next_calls (w_trace (snd (optionalAuth db_query jwt_verify env req w)))
     = next_calls (w_trace w)).
Proof.
  intros Ht.
  assert (Hsome : or_opt t None <> None ->
                  optionalAuth db_query jwt_verify env req w
                  = authenticateToken db_query jwt_verify env req w).
  { intros Hsome. unfold optionalAuth. unfold bind at 1, lift at 1. rewrite Ht.
    destruct (or_opt t None); [|congruence].
    unfold try_catch.
    destruct (authenticateToken_returns req w t Ht) as [w' ->]. reflexivity. }
  split; [|split].
  - intros Hnone. unfold optionalAuth. unfold bind at 1, lift at 1.
    rewrite Ht, Hnone. reflexivity.
  - exact Hsome.
  - intros token e Hsometok Hv.
    rewrite Hsome by congruence.
    assert (Htok : t = Some token /\ Str.nonempty token = true).
    { unfold or_opt in Hsometok. destruct t as [s|]; [|discriminate].
      destruct (Str.nonempty s) eqn:Hs; [|discriminate].
      injection Hsometok as ->. auto. }
    destruct Htok as [-> Hne].
    rewrite (authenticateToken_unverified req w token e Ht Hne Hv).
    observe_trace. split; [reflexivity | lia].
Qed.

End AuthFacts.

(** A verified token of the active user [u-1] on a healthy store. *)
Lemma authenticateToken_decides_witness :
  exists w',
    authenticateToken Sample.healthy Sample.verify (Sample.env_of None)
      (Sample.request "GET" "/api/plans"
         [("authorization", VStr "Bearer abc.def.ghi")] None)
      Sample.start
    = (Ret tt, w').
Proof.
  destruct (authenticateToken_decides Sample.healthy Sample.verify
              (Sample.env_of None)
              (Sample.request "GET" "/api/plans"
                 [("authorization", VStr "Bearer abc.def.ghi")] None)
              Sample.start (Some "abc.def.ghi") eq_refl) as (w' & H & _).
  exists w'. exact H.
Defined.

(** A request with no authorization header goes on unauthenticated. *)
Lemma optionalAuth_is_authenticateToken_witness :
  optionalAuth Sample.healthy Sample.verify (Sample.env_of None)
    (Sample.request "GET" "/api/plans" [] None) Sample.start
  = (Ret tt, {| w_db := tt; w_user := None; w_trace := [NextCalled] |}).
Proof.
  exact (proj1 (optionalAuth_is_authenticateToken Sample.healthy Sample.verify
                  (Sample.env_of None)
                  (Sample.request "GET" "/api/plans" [] None)
                  Sample.start None eq_refl) eq_refl).
Defined.

(** A verifier that accepts no token. *)
Example optionalAuth_bad_token :
  let refuse := fun _ _ : string => @Throw value (Exn "jwt malformed") in
  responses (w_trace (snd (optionalAuth Sample.healthy refuse (Sample.env_of None)
                             (Sample.request "GET" "/api/plans"
                                [("authorization", VStr "Bearer nonsense")] None)
                             Sample.start)))
  = [(403%Z, SimpleError "Invalid token")].
Proof. reflexivity. Qed.

(* ================================================================== *)
(** * Permission and role guards *)
(* ================================================================== *)

Lemma array_includes_In (xs : list string) (x : string) :
  array_includes xs x = true <-> In x xs.
Proof.
  unfold array_includes. rewrite existsb_exists. split.
  - intros (y & Hy & E). apply String.eqb_eq in E. now subst.
  - intros H. exists x. split; [assumption | apply String.eqb_refl].
Qed.

(** X9. [requirePermission] lets a request through exactly when it has a
    user who holds the permission, spelled the same. A request without a
    user is answered 401 with no audit entry; a user without the permission
    is answered 403, after one PERMISSION_DENIED entry for that user. A
    user whose row had no permission but [null] holds none, and is refused
    every permission. *)
Theorem requirePermission_decides (permission : string) (req : Request) :
  (In GuardNext (requirePermission permission req) <->
   exists user, req_user req = Some user /\ In permission (permissions user)) /\
  (req_user req = None ->
   requirePermission permission req
   = [GuardRespond 401 "Authentication required" None]) /\
  (forall user,
     req_user req = Some user -> ~ In permission (permissions user) ->
     requirePermission permission req
     = [ GuardAudit "PERMISSION_DENIED" (userId user) (OnePermission permission)
           (permissions user) (req_path req);
         GuardRespond 403 "Insufficient permissions"
           (Some (OnePermission permission)) ]) /\
  (forall row,
     req_user req = Some (userOfRow row) ->
     (forall p, In p (row_permissions row) -> p = None) ->
     ~ In GuardNext (requirePermission permission req)).
Proof.
  unfold requirePermission.
  assert (Hnull : forall row,
             (forall p, In p (row_permissions row) -> p = None) ->
             non_null (row_permissions row) = []).
  { intros row. unfold non_null.
    induction (row_permissions row) as [|p ps IH]; intros H; [reflexivity|].
    cbn [flat_map]. rewrite (H p) by (now left). cbn [app].
    apply IH. intros q Hq. apply H. now right. }
  split; [|split; [|split]].
  - destruct (req_user req) as [user|].
    + destruct (array_includes (permissions user) permission) eqn:E; cbn [negb].
      * split; [|intros _; now left].
        intros _. exists user. split; [reflexivity|].
        now apply array_includes_In.
      * split.
        -- intros [H | [H | []]]; discriminate.
        -- intros (u & [= <-] & Hin). apply array_includes_In in Hin. congruence.
    + split.
      * intros [H | []]. discriminate.
      * intros (u & H & _). discriminate.
  - intros ->. reflexivity.
  - intros user -> Hnot.
    destruct (array_includes (permissions user) permission) eqn:E; [|reflexivity].
    apply array_includes_In in E. contradiction.
  - intros row -> Hall. cbn [userOfRow permissions].
    rewrite (Hnull row Hall). cbn. intros [H | [H | []]]; discriminate.
Qed.

Lemma hasRole_common (held required : list string) :
  existsb (fun role => array_includes held role) required = true <->
  exists role, In role required /\ In role held.
Proof.
  rewrite existsb_exists. split.
  - intros (r & Hr & E). exists r. split; [assumption|].
    now apply array_includes_In.
  - intros (r & Hr & Hh). exists r. split; [assumption|].
    now apply array_includes_In.
Qed.

(** X10. [requireRole] lets a request through exactly when its user holds
    one of the required roles; a single role and the array of that one role
    are the same guard, and an empty array of roles lets nobody through.
    Whoever is let through with some roles required is let through when
    more roles are allowed. *)
Theorem requireRole_decides (req : Request) :
  (forall required : list string,
     In GuardNext (requireRole (inr required) req) <->
     exists user role,
       req_user req = Some user /\ In role required /\ In role (roles user)) /\
  (forall role : string,
     requireRole (inl role) req = requireRole (inr [role]) req) /\
  ~ In GuardNext (requireRole (inr []) req) /\
  (forall required more : list string,
     In GuardNext (requireRole (inr required) req) ->
     In GuardNext (requireRole (inr (required ++ more)) req)).
Proof.
  assert (Hiff : forall required : list string,
     In GuardNext (requireRole (inr required) req) <->
     exists user role,
       req_user req = Some user /\ In role required /\ In role (roles user)).
  { intros required. unfold requireRole. destruct (req_user req) as [user|].
    - destruct (existsb _ required) eqn:E; cbn [negb].
      + apply hasRole_common in E as (r & Hr & Hh).
        split; [|intros _; now left]. intros _. now exists user, r.
      + split.
        * intros [H | [H | []]]; discriminate.
        * intros (u & r & [= <-] & Hr & Hh).
          assert (T : existsb (fun role => array_includes (roles user) role)
                              required = true)
            by (apply hasRole_common; eauto).
          congruence.
    - split.
      + intros [H | []]. discriminate.
      + intros (u & r & H & _). discriminate. }
  split; [exact Hiff | split; [reflexivity | split]].
  - rewrite Hiff. intros (u & r & _ & [] & _).
  - intros required more. rewrite !Hiff.
    intros (u & r & Hu & Hr & Hh). exists u, r.
    repeat split; try assumption. apply in_or_app. now left.
Qed.

(* ================================================================== *)
(** * Errors on their way through the handler *)
(* ================================================================== *)

(** What the handler sends and what it writes. *)
Lemma errorHandler_observed {DbState : Type}
    (db_query : Query -> DbState -> outcome (list UserRow) * DbState)
    (env : Env) (error : AppError) (req : Request) (t0 t1 : string)
    (w : World DbState) :
  let w' := snd (errorHandler db_query env error req t0 t1 w) in
  responses (w_trace w')
  = responses (w_trace w) ++ [errorResponse env error req t0 t1] /\
  queries (w_trace w')
  = queries (w_trace w)
    ++ [InsertSystemError (systemErrorRecord env error req (initialStatus error))].
Proof.
  cbn zeta. rewrite errorHandler_run. cbn [snd w_trace]. split.
  - rewrite responses_app. cbn [responses flat_map].
    rewrite responses_app, attempt_responses. cbn [responses flat_map app].
    now destruct (errorResponse env error req t0 t1).
  - rewrite queries_app. cbn [queries flat_map].
    rewrite queries_app, attempt_queries. reflexivity.
Qed.

Lemma status_texts :
  forallb (fun n => String.eqb
                      (api_status (newHealthcareAPIError EmptyString (Z.of_nat n)
                                     EmptyString))
                      (if (400 <=? n)%nat && (n <=? 499)%nat
                       then "fail" else "error"))
          (seq 100 500) = true.
Proof. vm_compute. reflexivity. Qed.

(** X11. The [status] of a [HealthcareAPIError] with an HTTP status code,
    100 to 599, is "fail" for the codes 400 to 499 and "error" for every
    other one. *)
Theorem HealthcareAPIError_status (message stack : string) (statusCode : Z) :
  (100 <= statusCode <= 599)%Z ->
  api_status (newHealthcareAPIError message statusCode stack)
  = if ((400 <=? statusCode) && (statusCode <=? 499))%Z then "fail" else "error".
Proof.
  intros H.
  pose proof (proj1 (forallb_forall _ _) status_texts (Z.to_nat statusCode)) as E.
  cbv beta in E. rewrite Z2Nat.id in E by lia.
  assert (Hin : In (Z.to_nat statusCode) (seq 100 500)) by (apply in_seq; lia).
  apply E, String.eqb_eq in Hin. cbn [api_status newHealthcareAPIError] in *.
  rewrite Hin.
  destruct (Z.leb_spec 400 statusCode), (Z.leb_spec statusCode 499);
    destruct (Nat.leb_spec 400 (Z.to_nat statusCode)),
             (Nat.leb_spec (Z.to_nat statusCode) 499);
    try reflexivity; lia.
Qed.

Lemma HealthcareAPIError_status_witness :
  api_status (newHealthcareAPIError "Plan not found" 404 "at getPlan") = "fail".
Proof.
  apply (HealthcareAPIError_status "Plan not found" "at getPlan" 404). lia.
Defined.

(** X12. An unknown route. The error of [notFound], handled by
    [errorHandler], is answered 404 with the message naming the route, in
    every deployment mode, and is written to system_errors as a
    CLIENT_ERROR of severity MEDIUM with the code 404. *)
Theorem notFound_answer {DbState : Type}
    (db_query : Query -> DbState -> outcome (list UserRow) * DbState)
    (env : Env) (req : Request) (stack t0 t1 : string) (w : World DbState) :
  let error := api_error (notFound req stack) in
  let w' := snd (errorHandler db_query env error req t0 t1 w) in
  exists (body : ErrorBody) (record : SystemErrorRecord),
    responses (w_trace w') = responses (w_trace w) ++ [(404%Z, ErrorEnvelope body)] /\
    eb_status body = 404%Z /\
    eb_message body = ("Route " ++ req_originalUrl req ++ " not found")%string /\
    queries (w_trace w') = queries (w_trace w) ++ [InsertSystemError record] /\
    se_error_type record = "CLIENT_ERROR" /\
    se_severity_level record = "MEDIUM" /\
    se_error_code record = "404".
Proof.
  cbn zeta.
  destruct (errorHandler_observed db_query env (api_error (notFound req stack))
              req t0 t1 w) as [Hr Hq].
  cbn zeta in Hr, Hq. rewrite Hr, Hq, errorResponse_shape.
  eexists _, _. repeat split.
  cbn. unfold maskMessage. cbn. now rewrite andb_false_r.
Qed.

(** X13. A request that fails validation. The error of [validate],
    handled by [errorHandler], is answered 400 with the messages of the
    details joined by "; ", without the words "Validation failed"; the
    errors of [validateQuery] and [validateParams], which carry no details,
    are answered 400 with their whole message. Neither is masked in any
    deployment mode, and each is written as a VALIDATION_ERROR of severity
    MEDIUM. *)
Theorem validation_failure_answer {DbState : Type}
    (db_query : Query -> DbState -> outcome (list UserRow) * DbState)
    (env : Env) (schema_validate : value -> JoiResult) (req : Request)
    (stack t0 t1 : string) (w : World DbState) :
  let answer error :=
    errorResponse env (api_error error) req t0 t1 in
  let written error :=
    systemErrorRecord env (api_error error) req
      (initialStatus (api_error error)) in
  let handled error (message : string) :=
    responses (w_trace (snd (errorHandler db_query env (api_error error)
                               req t0 t1 w)))
    = responses (w_trace w) ++ [answer error] /\
    fst (answer error) = 400%Z /\
    option_map eb_message (response_error (answer error)) = Some message /\
    se_error_type (written error) = "VALIDATION_ERROR" /\
    se_severity_level (written error) = "MEDIUM" in
  (forall details,
     joi_error (schema_validate (req_body req)) = Some details ->
     exists error,
       validate schema_validate stack req = Invalid error /\
       handled error (detail_messages details)) /\
  (forall details,
     joi_error (schema_validate (req_query req)) = Some details ->
     exists error,
       validateQuery schema_validate stack req = Invalid error /\
       handled error ("Query validation failed: " ++ detail_messages details)%string) /\
  (forall details,
     joi_error (schema_validate (req_params req)) = Some details ->
     exists error,
       validateParams schema_validate stack req = Invalid error /\
       handled error
         ("Parameter validation failed: " ++ detail_messages details)%string).
Proof.
  cbn zeta. split; [|split]; intros details Hd;
    eexists; (split; [unfold validate, validateQuery, validateParams;
                      rewrite Hd; reflexivity|]);
    (split; [apply errorHandler_observed|]);
    rewrite errorResponse_shape; repeat split;
    cbn; unfold maskMessage; cbn; now rewrite andb_false_r.
Qed.

(** A body that fails on two fields. *)
Example validation_failure_example :
  let schema := fun _ : value =>
    {| joi_error := Some [ {| vd_message := "firstName is required" |};
                           {| vd_message := "planId must be a number" |} ];
       joi_value := VUndefined |} in
  match validate schema "at validate" (Sample.request "POST" "/api/members" [] None) with
  | Invalid error =>
      option_map eb_message
        (response_error (errorResponse (Sample.env_of (Some "production"))
                           (api_error error)
                           (Sample.request "POST" "/api/members" [] None)
                           "t0" "t1"))
      = Some "firstName is required; planId must be a number"
  | Valid _ => False
  end.
Proof. reflexivity. Qed.

(** X14. What reaches system_errors of a request's secrets. In the row
    the handler writes, a sensitive header and a sensitive top-level field
    of an object body that hold a truthy value hold the marker instead,
    whatever the error and the deployment mode; the line the handler writes
    to the local log holds the body as it was received. *)
Theorem persisted_request_is_redacted {DbState : Type}
    (db_query : Query -> DbState -> outcome (list UserRow) * DbState)
    (env : Env) (error : AppError) (req : Request) (t0 t1 : string)
    (w : World DbState) :
  exists record : SystemErrorRecord,
    queries (w_trace (snd (errorHandler db_query env error req t0 t1 w)))
    = queries (w_trace w) ++ [InsertSystemError record] /\
    (forall name v,
       In name sensitiveHeaders ->
       Js.lookup name (req_headers req) = Some v -> Js.truthy v = true ->
       Js.opt_get (Js.opt_get (se_request_data record) "headers") name = REDACTED) /\
    (forall fields field v,
       req_body req = VObj fields ->
       In field sensitiveFields ->
       Js.lookup field fields = Some v -> Js.truthy v = true ->
       Js.opt_get (Js.opt_get (se_request_data record) "body") field = REDACTED) /\
    In (Logged LError "API Error:" (PDetails (buildErrorDetails error req t0)))
       (w_trace (snd (errorHandler db_query env error req t0 t1 w))) /\
    ed_body (buildErrorDetails error req t0) = req_body req.
Proof.
  eexists. split; [apply errorHandler_observed|].
  cbn [se_request_data systemErrorRecord]. split; [|split; [|split]].
  - intros name v Hin Hl Ht.
    change (Js.opt_get (VObj ?o) "headers") with (sanitizeHeaders (VObj (req_headers req))).
    unfold sanitizeHeaders. cbn [Js.spread Js.opt_get]. unfold Js.get.
    now rewrite lookup_redact, Hl, (existsb_eqb_In _ _ Hin), Ht.
  - intros fields field v Hb Hin Hl Ht.
    change (Js.opt_get (VObj ?o) "body") with (sanitizeRequestData (req_body req)).
    rewrite Hb. unfold sanitizeRequestData. cbn [Js.truthy negb Js.spread Js.opt_get].
    unfold Js.get.
    now rewrite lookup_redact, Hl, (existsb_eqb_In _ _ Hin), Ht.
  - rewrite errorHandler_run. cbn [snd w_trace].
    apply in_or_app. right. now left.
  - reflexivity.
Qed.

(* ================================================================== *)
(** * What the audit listener writes *)
(* ================================================================== *)

Lemma after_audit_queries {DbState : Type}
    (db_query : Query -> DbState -> outcome (list UserRow) * DbState)
    (req : Request) (w : World DbState) :
  queries (w_trace (after_audit db_query req w))
  = queries (w_trace w)
    ++ (if shouldAuditRequest req then [InsertAuditLog (auditRecord req)] else [])
    ++ match containsPHI req, req_user req with
       | true, Some user => [InsertPhiAccessLog (phiAccessRecord req user)]
       | _, _ => []
       end.
Proof.
  unfold after_audit.
  destruct (shouldAuditRequest req), (containsPHI req), (req_user req);
    rewrite ?after_attempt_queries, <- ?app_assoc, ?app_nil_r; reflexivity.
Qed.

(** X15. The two writes of the finish listener are independent. Whatever
    the store answers, failures included, the listener sends the INSERT of
    the audit row when the request is to be audited and then the INSERT of
    the PHI access row when the request is PHI-bearing and has a user: a
    failed audit INSERT does not keep the PHI access INSERT from being
    sent, and the listener sends nothing else. *)
Theorem auditOnFinish_statements {DbState : Type}
    (db_query : Query -> DbState -> outcome (list UserRow) * DbState)
    (req : Request) (metadata : AuditMetadata) (w : World DbState) :
  queries (w_trace (snd (auditOnFinish db_query req metadata w)))
  = queries (w_trace w)
    ++ (if shouldAuditRequest req then [InsertAuditLog (auditRecord req)] else [])
    ++ match containsPHI req, req_user req with
       | true, Some user => [InsertPhiAccessLog (phiAccessRecord req user)]
       | _, _ => []
       end.
Proof. rewrite auditOnFinish_run. apply after_audit_queries. Qed.

(** The store is down; both rows of an authenticated member request are
    attempted. *)
Example auditOnFinish_store_down :
  let req := Sample.request "GET" "/api/members/12345" [] (Some Sample.analyst) in
  queries (w_trace (snd (auditOnFinish Sample.down req Sample.metadata Sample.start)))
  = [ InsertAuditLog (auditRecord req);
      InsertPhiAccessLog (phiAccessRecord req Sample.analyst) ].
Proof. reflexivity. Qed.

Lemma containsPHI_includes (req : Request) :
  containsPHI req
  = Str.includes (req_path req) "/members" || Str.includes (req_path req) "/claims".
Proof. unfold containsPHI. cbn [existsb]. now rewrite orb_false_r. Qed.

(** X16. The rows of one request agree on PHI. The audit row is flagged
    as containing PHI exactly when its resource type is MEMBER or CLAIM.
    A PHI access row is written only for a PHI-bearing request; its PHI
    type is then DEMOGRAPHIC or MEDICAL, never GENERAL, and its list of PHI
    elements is not empty. *)
Theorem phi_rows_agree {DbState : Type}
    (db_query : Query -> DbState -> outcome (list UserRow) * DbState)
    (req : Request) (metadata : AuditMetadata) (w : World DbState) :
  (al_contains_phi (auditRecord req) = true <->
   al_resource_type (auditRecord req) = "MEMBER"
   \/ al_resource_type (auditRecord req) = "CLAIM") /\
  (forall row,
     In (InsertPhiAccessLog row)
        (queries (w_trace (snd (auditOnFinish db_query req metadata w)))) ->
     In (InsertPhiAccessLog row) (queries (w_trace w))
     \/ (containsPHI req = true /\
         (pa_phi_type row = "DEMOGRAPHIC" \/ pa_phi_type row = "MEDICAL") /\
         pa_phi_elements row <> [])).
Proof.
  split.
  - cbn [al_contains_phi al_resource_type auditRecord].
    rewrite containsPHI_includes. unfold getResourceType.
    destruct (Str.includes (req_path req) "/members");
      [cbn; tauto|].
    destruct (Str.includes (req_path req) "/claims"); [cbn; tauto|].
    cbn [orb]. split; [discriminate|].
    destruct (Str.includes (req_path req) "/providers");
      [intros [H | H]; discriminate|].
    destruct (Str.includes (req_path req) "/users" || Str.includes (req_path req) "/auth");
      [intros [H | H]; discriminate|].
    destruct (Str.includes (req_path req) "/admin");
      intros [H | H]; discriminate.
  - intros row. rewrite auditOnFinish_run. cbn [snd]. rewrite after_audit_queries.
    intros Hin. apply in_app_or in Hin as [Hin | Hin]; [now left|].
    apply in_app_or in Hin as [Hin | Hin].
    + destruct (shouldAuditRequest req); [|destruct Hin].
      destruct Hin as [Hin | []]. discriminate.
    + destruct (containsPHI req) eqn:Hphi; [|destruct Hin].
      destruct (req_user req) as [user|]; [|destruct Hin].
      destruct Hin as [[= <-] | []]. right. split; [reflexivity|].
      cbn [pa_phi_type pa_phi_elements phiAccessRecord].
      rewrite containsPHI_includes in Hphi.
      unfold getPHIType, getPHIElements.
      destruct (Str.includes (req_path req) "/members").
      * split; [now left | discriminate].
      * cbn [orb] in Hphi. rewrite Hphi. split; [now right | discriminate].
Qed.

(** X17. What the listener leaves unrecorded. A request without a user,
    with a method that modifies nothing, on a path that contains none of
    [/auth/], [/admin/], [/members/], [/claims/] and [/providers/], leaves
    no trace: no statement is sent and nothing is logged, even when the
    path is PHI-bearing, as a listing [/api/members] is. *)
Theorem auditOnFinish_unrecorded {DbState : Type}
    (db_query : Query -> DbState -> outcome (list UserRow) * DbState)
    (req : Request) (metadata : AuditMetadata) (w : World DbState) :
  req_user req = None ->
  mutating (req_method req) = false ->
  (forall part, In part ["/auth/"; "/admin/"; "/members/"; "/claims/"; "/providers/"] ->
                Str.includes (req_path req) part = false) ->
  auditOnFinish db_query req metadata w = (Ret tt, w).
Proof.
  intros Huser Hmethod Hparts.
  rewrite auditOnFinish_run. f_equal. unfold after_audit.
  assert (Haudit : shouldAuditRequest req = false).
  { unfold shouldAuditRequest. unfold mutating in Hmethod.
    rewrite Huser, Hmethod. cbn [existsb].
    rewrite !Hparts by (simpl; tauto). reflexivity. }
  rewrite Haudit, Huser. now destruct (containsPHI req).
Qed.

(** An anonymous listing of the members is PHI-bearing and unrecorded. *)
Lemma auditOnFinish_unrecorded_witness :
  let req := Sample.request "GET" "/api/members" [] None in
  containsPHI req = true /\
  auditOnFinish Sample.healthy req Sample.metadata Sample.start
  = (Ret tt, Sample.start).
Proof.
  split; [reflexivity|].
  apply (auditOnFinish_unrecorded Sample.healthy
           (Sample.request "GET" "/api/members" [] None)
           Sample.metadata Sample.start eq_refl eq_refl).
  intros part Hin. simpl in Hin.
  destruct Hin as [<- | [<- | [<- | [<- | [<- | []]]]]]; reflexivity.
Defined.

(* ================================================================== *)
(** * Rate limiting *)
(* ================================================================== *)

Lemma append_inj_l (p a b : string) : (p ++ a)%string = (p ++ b)%string -> a = b.
Proof. induction p as [|c p IH]; simpl; intros H; [assumption|]. injection H. auto. Qed.

(** X18. The keys of the rate limiter keep clients apart. Two requests
    get the same key only if they are of the same authenticated user, or
    are both without one and come from the same address (the text
    "unknown" standing for a missing address): a request without a user
    never shares the key of a user. *)
Theorem getClientId_separates (r1 r2 : Request) :
  getClientId r1 = getClientId r2 ->
  client_user r1 = client_user r2 /\
  (client_user r1 = None -> client_ip r1 = client_ip r2).
Proof.
  unfold getClientId.
  destruct (client_user r1) as [u1|], (client_user r2) as [u2|]; intros H.
  - apply (append_inj_l "user:") in H. subst. split; [reflexivity | discriminate].
  - discriminate.
  - discriminate.
  - apply (append_inj_l "ip:") in H. auto.
Qed.

(** Two anonymous requests from one address share a key. *)
Lemma getClientId_separates_witness :
  client_ip (Sample.request "GET" "/api/plans" [] None)
  = client_ip (Sample.request "POST" "/api/claims" [] None).
Proof.
  apply (getClientId_separates (Sample.request "GET" "/api/plans" [] None)
           (Sample.request "POST" "/api/claims" [] None) eq_refl).
  reflexivity.
Defined.

Lemma round_seconds_near (ms : Z) :
  (-500 < 1000 * round_seconds ms - ms <= 500)%Z.
Proof. unfold round_seconds. Z.div_mod_to_equations. lia. Qed.

(** X19. The verdict of the rate limiter. The middleware consumes one
    point of the limiter of the path under the key of the client. When the
    point is granted it calls [next] and answers nothing. When [consume]
    rejects, for whatever reason, it does not call [next] and answers 429;
    the Retry-After header and [retryAfter] of the body are the same number
    of seconds, within half a second of the time left, and zero when the
    rejection names no time. *)
Theorem rateLimiter_verdict {Store : Type}
    (consume : Limiter -> string -> Store -> Consumption * Store)
    (now : Z) (req : Request) (store : Store) :
  let r := consume (getRateLimiter (req_path req)) (getClientId req) store in
  let out := rateLimiter consume now req store in
  snd out = snd r /\
  (forall res,
     fst r = Consumed res ->
     In PassOn (fst out) /\
     forall error message retryAfter,
       ~ In (Respond429 error message retryAfter) (fst out)) /\
  (forall rejRes,
     fst r = Rejected rejRes ->
     ~ In PassOn (fst out) /\
     exists retryAfter headers,
       In (Respond429 "Too Many Requests"
             "Rate limit exceeded. Please try again later." retryAfter)
          (fst out) /\
       In (SetHeaders headers) (fst out) /\
       In ("Retry-After", HNumber retryAfter) headers /\
       (-500 < 1000 * retryAfter - or_zero (rej_msBeforeNext rejRes) <= 500)%Z /\
       (rej_msBeforeNext rejRes = None -> retryAfter = 0%Z)).
Proof.
  cbn zeta. unfold rateLimiter.
  destruct (consume _ _ store) as [[res | rej] store']; cbn [fst snd].
  - split; [reflexivity | split].
    + intros res' _. split; [simpl; auto|].
      intros e m ra [H | [H | []]]; discriminate.
    + intros rej H. discriminate.
  - split; [reflexivity | split].
    + intros res H. discriminate.
    + intros rej' [= <-]. split.
      * intros [H | [H | [H | []]]]; discriminate.
      * eexists _, _. split; [simpl; eauto|].
        split; [simpl; eauto|].
        split; [simpl; eauto 6|].
        split; [apply round_seconds_near|].
        intros ->. reflexivity.
Qed.

(** A rejection that leaves 400 ms is answered with Retry-After 0. *)
Example rateLimiter_short_block :
  let consume := fun (_ : Limiter) (_ : string) (s : unit) =>
    (Rejected {| rej_remainingPoints := Some 0%Z; rej_msBeforeNext := Some 400%Z |}, s) in
  In (Respond429 "Too Many Requests"
        "Rate limit exceeded. Please try again later." 0)
     (fst (rateLimiter consume 1000 (Sample.request "POST" "/api/auth/login" [] None) tt)).
Proof. simpl. auto. Qed.

(* ================================================================== *)
(** * No lost updates *)
(* ================================================================== *)

(** The four limiters have points to give, a window that lasts and a block
    that does not end before it starts. *)
Lemma getRateLimiter_configured (path : string) :
  (0 < points (getRateLimiter path) /\
   0 < duration (getRateLimiter path) /\
   0 <= blockDuration (getRateLimiter path))%Z.
Proof.
  unfold getRateLimiter.
  destruct (Str.includes path "/auth/"); [cbn; lia|].
  destruct (Str.includes path "/admin/"); [cbn; lia|].
  destruct (_ || _); cbn; lia.
Qed.

Lemma limiter_eqb_refl (l : Limiter) : limiter_eqb l l = true.
Proof. unfold limiter_eqb. now rewrite !Z.eqb_refl. Qed.

Lemma store_window_same (store : CounterStore) (l : Limiter) (key : string)
    (win : RateLimitWindow) :
  store_window store l key win l key = Some win.
Proof. unfold store_window. now rewrite limiter_eqb_refl, String.eqb_refl. Qed.

(** What the middleware makes of the answer of [consume]. *)
Lemma rateLimiter_outcome {Store : Type}
    (consume : Limiter -> string -> Store -> Consumption * Store)
    (now : Z) (req : Request) (store : Store) :
  let r := consume (getRateLimiter (req_path req)) (getClientId req) store in
  let out := rateLimiter consume now req store in
  snd out = snd r /\
  passed (fst out) = match fst r with Consumed _ => true | Rejected _ => false end /\
  refused (fst out) = match fst r with Consumed _ => false | Rejected _ => true end.
Proof.
  cbn zeta. unfold rateLimiter.
  destruct (consume _ _ store) as [[res | rej] store']; cbn; auto.
Qed.

(** One call of the counter: it grants a point exactly when the key has
    one left, and leaves one point less; a rejected key has none left. *)
Lemma consume_spec_step (now : Z) (l : Limiter) (key : string)
    (store : CounterStore) :
  (0 < duration l)%Z -> (0 <= blockDuration l)%Z ->
  let avail := remaining_points now l key store in
  let r := consume_spec now l key store in
  ((0 < avail)%Z ->
   (exists res, fst r = Consumed res) /\
   remaining_points now l key (snd r) = (avail - 1)%Z) /\
  ((avail <= 0)%Z ->
   (exists rejRes, fst r = Rejected rejRes) /\
   remaining_points now l key (snd r) = 0%Z).
Proof.
  intros Hd Hb. cbn zeta. unfold remaining_points, consume_spec.
  destruct (blocked_until now (store l key)) as [t|] eqn:Hblock.
  - cbn [fst snd]. rewrite Hblock. split; [lia|]. intros _. eauto.
  - set (win := open_window now l (store l key)).
    assert (Hin : in_window now l win = true).
    { subst win. unfold open_window.
      destruct (store l key) as [stored|]; cbn [fresh_window].
      - destruct (block_until stored).
        + unfold in_window. cbn. apply andb_true_intro. split; lia.
        + destruct (in_window now l stored) eqn:E; [exact E|].
          unfold in_window. cbn. apply andb_true_intro. split; lia.
      - unfold in_window. cbn. apply andb_true_intro. split; lia. }
    destruct (consumed_count win + 1 <=? points l)%Z eqn:Hroom;
      cbn [fst snd]; rewrite store_window_same.
    + apply Z.leb_le in Hroom.
      split; [|intros; lia]. intros _. split; [eauto|].
      cbn [blocked_until block_until open_window].
      unfold in_window in *. cbn [window_start consumed_count] in *.
      rewrite Hin. cbn [consumed_count]. lia.
    + apply Z.leb_gt in Hroom.
      split; [intros; lia|]. intros _. split; [eauto|].
      cbn [blocked_until block_until].
      destruct (now <=? now + blockDuration l * 1000)%Z eqn:E; [reflexivity|].
      apply Z.leb_gt in E. lia.
Qed.

(** The counts of any number of calls on one key, by induction on the
    order in which they run. *)
Lemma serve_counts (now : Z) (l : Limiter) (key : string)
    (reqs : list Request) :
  forall store : CounterStore,
    (forall req, In req reqs ->
                 getClientId req = key /\ getRateLimiter (req_path req) = l) ->
    let avail := Z.to_nat (remaining_points now l key store) in
    let outs := fst (serve (consume_spec now) now reqs store) in
    count_passed outs = Nat.min (length reqs) avail /\
    count_refused outs = length reqs - avail.
Proof.
  induction reqs as [|req rest IH]; intros store Hall; cbn zeta.
  - split; reflexivity.
  - destruct (Hall req (or_introl eq_refl)) as [Hkey Hl].
    destruct (getRateLimiter_configured (req_path req)) as (_ & Hd & Hb).
    rewrite Hl in Hd, Hb.
    pose proof (rateLimiter_outcome (consume_spec now) now req store) as Hout.
    cbn zeta in Hout. rewrite Hkey, Hl in Hout.
    destruct Hout as (Hstore & Hpass & Hrefuse).
    pose proof (consume_spec_step now l key store Hd Hb) as Hstep.
    cbn zeta in Hstep. destruct Hstep as [Hgrant Hreject].
    cbn [serve].
    destruct (rateLimiter (consume_spec now) now req store) as [effects store'].
    cbn [fst snd] in Hstore, Hpass, Hrefuse. subst store'.
    specialize (IH (snd (consume_spec now l key store))
                  (fun r Hr => Hall r (or_intror Hr))).
    cbn zeta in IH.
    destruct (serve (consume_spec now) now rest
                (snd (consume_spec now l key store))) as [others store''].
    cbn [fst] in IH |- *. destruct IH as [IHp IHr].
    unfold count_passed, count_refused in *. cbn [filter length].
    destruct (Z_lt_le_dec 0 (remaining_points now l key store)) as [Hpos | Hnone].
    + destruct (Hgrant Hpos) as [[res Hres] Hleft].
      rewrite Hres in Hpass, Hrefuse. rewrite Hpass, Hrefuse. cbn [length].
      rewrite Hleft in IHp, IHr. rewrite IHp, IHr. split; lia.
    + destruct (Hreject Hnone) as [[rejRes Hrej] Hleft].
      rewrite Hrej in Hpass, Hrefuse. rewrite Hpass, Hrefuse. cbn [length].
      rewrite Hleft in IHp, IHr. rewrite IHp, IHr. split; lia.
Qed.

(** C3. No lost updates, over the counter of the spec.  Requests that are
    in flight together at [now], all under one key and one limiter, are run
    through the middleware in any order of their [consume] calls.  With
    [avail] points left for the key at [now], exactly the smaller of their
    number and [avail] are handed on and exactly the others (their number
    less [avail], none when there are fewer than [avail]) are answered 429;
    every other order of the same requests gives the same two counts.  For
    a key the counter has not seen, [avail] is the capacity of the limiter;
    of two requests for a key with one point left, one is handed on and one
    is answered 429. *)
Theorem no_lost_updates (now : Z) (l : Limiter) (key : string)
    (reqs : list Request) (store : CounterStore) :
  (forall req, In req reqs ->
               getClientId req = key /\ getRateLimiter (req_path req) = l) ->
  let avail := Z.to_nat (remaining_points now l key store) in
  let outs := fst (serve (consume_spec now) now reqs store) in
  count_passed outs = Nat.min (length reqs) avail /\
  count_refused outs = length reqs - avail /\
  (forall reqs',
     Permutation reqs reqs' ->
     let outs' := fst (serve (consume_spec now) now reqs' store) in
     count_passed outs' = count_passed outs /\
     count_refused outs' = count_refused outs) /\
  (store l key = None -> avail = Z.to_nat (points l)) /\
  (avail = 1 -> length reqs = 2 ->
   count_passed outs = 1 /\ count_refused outs = 1).
Proof.
  intros Hall. cbn zeta.
  destruct (serve_counts now l key reqs store Hall) as [Hp Hr].
  cbn zeta in Hp, Hr.
  split; [exact Hp | split; [exact Hr | split; [|split]]].
  - intros reqs' Hperm.
    destruct (serve_counts now l key reqs' store) as [Hp' Hr'].
    { intros req Hin. apply Hall. eapply Permutation_in; [|exact Hin].
      now apply Permutation_sym. }
    cbn zeta in Hp', Hr'.
    rewrite Hp, Hr, Hp', Hr', (Permutation_length Hperm). split; reflexivity.
  - intros Hfresh. unfold remaining_points. rewrite Hfresh. cbn.
    now rewrite Z.sub_0_r.
  - intros Hone Htwo. rewrite Hp, Hr, Hone, Htwo. split; reflexivity.
Qed.

(** Six logins from one address against a counter that has not seen it:
    five are handed on, the sixth is answered 429. *)
Lemma no_lost_updates_witness :
  let login := Sample.request "POST" "/api/auth/login" [] None in
  let outs := fst (serve (consume_spec 0) 0 (repeat login 6) no_windows) in
  count_passed outs = 5 /\ count_refused outs = 1.
Proof.
  pose proof (no_lost_updates 0 rateLimiters.auth "ip:203.0.113.9"
                (repeat (Sample.request "POST" "/api/auth/login" [] None) 6)
                no_windows) as H.
  cbn zeta in H.
  destruct H as (Hp & Hr & _).
  - intros req Hin. apply repeat_spec in Hin. subst req.
    split; reflexivity.
  - split; [exact Hp | exact Hr].
Defined.

(** The run of the spec's example: the remaining points go 4, 3, 2, 1, 0,
    and the sixth request is told to come back in 900 seconds. *)
Example six_logins :
  let login := Sample.request "POST" "/api/auth/login" [] None in
  map (fun effects =>
         match effects with
         | [SetHeaders (_ :: (_, HNumber remaining) :: _); PassOn] => Some remaining
         | _ => None
         end)
      (fst (serve (consume_spec 0) 0 (repeat login 6) no_windows))
  = [Some 4; Some 3; Some 2; Some 1; Some 0; None]%Z /\
  In (Respond429 "Too Many Requests"
        "Rate limit exceeded. Please try again later." 900)
     (nth 5 (fst (serve (consume_spec 0) 0 (repeat login 6) no_windows)) []).
Proof. split; [reflexivity | simpl; auto]. Qed.

(* ================================================================== *)
(** * Transactions *)
(* ================================================================== *)

Section TransactionFacts.

Context {Pool Result : Type}.
Variable pool_connect : Pool -> outcome unit * Pool.
Variable client_query : string -> Pool -> outcome unit * Pool.
Variable callback : Pool -> outcome Result * Pool.

(** X20. [withTransaction], case by case. A failed [connect] raises with
    nothing sent and nothing released. After a successful one: a failure of
    BEGIN, of the callback or of COMMIT is followed by ROLLBACK and by the
    release of the client, and raises the failure's error, or the error of
    ROLLBACK when that fails too; success of all three returns the result
    of the callback after COMMIT and the release. COMMIT is not sent after
    a failed callback. *)
Theorem withTransaction_cases (p : Pool) (events : list TxEvent) :
  let run := withTransaction pool_connect client_query callback (p, events) in
  let rolled_back := rolled_back (Result := Result) client_query in
  (forall e p0,
     pool_connect p = (Throw e, p0) ->
     run = (Throw e, (p0, events ++ [Connecting]))) /\
  (forall p0 e p1,
     pool_connect p = (Ret tt, p0) ->
     client_query "BEGIN" p0 = (Throw e, p1) ->
     run = (fst (rolled_back e p1),
            (snd (rolled_back e p1),
             events ++ [Connecting; Sent "BEGIN"; Sent "ROLLBACK"; Released]))) /\
  (forall p0 p1 e p2,
     pool_connect p = (Ret tt, p0) ->
     client_query "BEGIN" p0 = (Ret tt, p1) ->
     callback p1 = (Throw e, p2) ->
     run = (fst (rolled_back e p2),
            (snd (rolled_back e p2),
             events ++ [Connecting; Sent "BEGIN"; CallbackRun;
                        Sent "ROLLBACK"; Released]))) /\
  (forall p0 p1 result p2 e p3,
     pool_connect p = (Ret tt, p0) ->
     client_query "BEGIN" p0 = (Ret tt, p1) ->
     callback p1 = (Ret result, p2) ->
     client_query "COMMIT" p2 = (Throw e, p3) ->
     run = (fst (rolled_back e p3),
            (snd (rolled_back e p3),
             events ++ [Connecting; Sent "BEGIN"; CallbackRun; Sent "COMMIT";
                        Sent "ROLLBACK"; Released]))) /\
  (forall p0 p1 result p2 p3,
     pool_connect p = (Ret tt, p0) ->
     client_query "BEGIN" p0 = (Ret tt, p1) ->
     callback p1 = (Ret result, p2) ->
     client_query "COMMIT" p2 = (Ret tt, p3) ->
     run = (Ret result,
            (p3, events ++ [Connecting; Sent "BEGIN"; CallbackRun;
                            Sent "COMMIT"; Released]))).
Proof.
  cbn zeta.
  unfold withTransaction, rolled_back, tx_bind, tx_finally, tx_catch, tx_do,
    tx_release, tx_ret, tx_throw.
  cbn [fst snd].
  repeat split.
  - intros e p0 ->. reflexivity.
  - intros p0 e p1 Hc Hb. rewrite Hc. cbn [fst snd]. rewrite Hb. cbn [fst snd].
    destruct (client_query "ROLLBACK" p1) as [[[]|e'] p2]; cbn [fst snd];
      now rewrite <- !app_assoc.
  - intros p0 p1 e p2 Hc Hb Hcb. rewrite Hc. cbn [fst snd]. rewrite Hb.
    cbn [fst snd]. rewrite Hcb. cbn [fst snd].
    destruct (client_query "ROLLBACK" p2) as [[[]|e'] p3]; cbn [fst snd];
      now rewrite <- !app_assoc.
  - intros p0 p1 result p2 e p3 Hc Hb Hcb Hcm. rewrite Hc. cbn [fst snd].
    rewrite Hb. cbn [fst snd]. rewrite Hcb. cbn [fst snd]. rewrite Hcm.
    cbn [fst snd].
    destruct (client_query "ROLLBACK" p3) as [[[]|e'] p4]; cbn [fst snd];
      now rewrite <- !app_assoc.
  - intros p0 p1 result p2 p3 Hc Hb Hcb Hcm. rewrite Hc. cbn [fst snd].
    rewrite Hb. cbn [fst snd]. rewrite Hcb. cbn [fst snd]. rewrite Hcm.
    cbn [fst snd]. now rewrite <- !app_assoc.
Qed.

Lemma releases_app (a b : list TxEvent) :
  releases (a ++ b) = releases a + releases b.
Proof. unfold releases. now rewrite filter_app, length_app. Qed.

Lemma sent_app (a b : list TxEvent) : sent (a ++ b) = sent a ++ sent b.
Proof. apply flat_map_app. Qed.

(** X21. [withTransaction] never leaks the client and never returns an
    uncommitted result. Once [connect] has succeeded, whatever the client
    and the callback do, the client is released exactly once, and last; a
    result is returned only after BEGIN and COMMIT and no ROLLBACK; and
    when an error is raised, ROLLBACK was the last statement sent. *)
Theorem withTransaction_releases (p p0 : Pool) (events : list TxEvent) :
  pool_connect p = (Ret tt, p0) ->
  exists (o : outcome Result) (p' : Pool) (steps : list TxEvent),
    withTransaction pool_connect client_query callback (p, events)
    = (o, (p', events ++ Connecting :: steps ++ [Released])) /\
    releases steps = 0 /\
    (forall result, o = Ret result -> sent steps = ["BEGIN"; "COMMIT"]) /\
    (forall e, o = Throw e ->
       exists before, sent steps = before ++ ["ROLLBACK"]
                      /\ ~ In "ROLLBACK" before).
Proof.
  intros Hc.
  unfold withTransaction, tx_bind, tx_finally, tx_catch, tx_do,
    tx_release, tx_ret, tx_throw.
  cbn [fst snd]. rewrite Hc. cbn [fst snd].
  destruct (client_query "BEGIN" p0) as [[[]|e] p1] eqn:Hb; cbn [fst snd].
  - destruct (callback p1) as [[result|e] p2] eqn:Hcb; cbn [fst snd].
    + destruct (client_query "COMMIT" p2) as [[[]|e] p3] eqn:Hcm; cbn [fst snd].
      * exists (Ret result), p3, [Sent "BEGIN"; CallbackRun; Sent "COMMIT"].
        split; [now rewrite <- !app_assoc|].
        split; [reflexivity|]. split; [reflexivity|]. intros e H. discriminate.
      * destruct (client_query "ROLLBACK" p3) as [[[]|e'] p4]; cbn [fst snd];
          eexists _, _, [Sent "BEGIN"; CallbackRun; Sent "COMMIT"; Sent "ROLLBACK"];
          (split; [now rewrite <- !app_assoc|]);
          (split; [reflexivity|]);
          (split; [intros r H; discriminate|]);
          intros e0 _; exists ["BEGIN"; "COMMIT"]; (split; [reflexivity|]);
          intros [H | [H | []]]; discriminate.
    + destruct (client_query "ROLLBACK" p2) as [[[]|e'] p3]; cbn [fst snd];
        eexists _, _, [Sent "BEGIN"; CallbackRun; Sent "ROLLBACK"];
        (split; [now rewrite <- !app_assoc|]);
        (split; [reflexivity|]);
        (split; [intros r H; discriminate|]);
        intros e0 _; exists ["BEGIN"]; (split; [reflexivity|]);
        intros [H | []]; discriminate.
  - destruct (client_query "ROLLBACK" p1) as [[[]|e'] p2]; cbn [fst snd];
      eexists _, _, [Sent "BEGIN"; Sent "ROLLBACK"];
      (split; [now rewrite <- !app_assoc|]);
      (split; [reflexivity|]);
      (split; [intros r H; discriminate|]);
      intros e0 _; exists ["BEGIN"]; (split; [reflexivity|]);
      intros [H | []]; discriminate.
Qed.

End TransactionFacts.

(** A callback that fails on a client whose ROLLBACK fails too: the error
    of ROLLBACK is the one raised, and the client is released. *)
Lemma withTransaction_releases_witness :
  let client := fun (statement : string) (p : unit) =>
    if String.eqb statement "ROLLBACK"
    then (@Throw unit (Exn "connection lost"), p) else (Ret tt, p) in
  let callback := fun p : unit => (@Throw nat (Exn "insert failed"), p) in
  exists (o : outcome nat) (p' : unit) (steps : list TxEvent),
    withTransaction (fun p => (Ret tt, p)) client callback (tt, [])
    = (o, (p', [] ++ Connecting :: steps ++ [Released])).
Proof.
  cbn zeta.
  destruct (withTransaction_releases (fun p : unit => (Ret tt, p))
              (fun (statement : string) (p : unit) =>
                 if String.eqb statement "ROLLBACK"
                 then (@Throw unit (Exn "connection lost"), p) else (Ret tt, p))
              (fun p : unit => (@Throw nat (Exn "insert failed"), p))
              tt tt [] eq_refl) as (o & p' & steps & H & _).
  exists o, p', steps. exact H.
Defined.

Example withTransaction_rollback_error :
  let client := fun (statement : string) (p : unit) =>
    if String.eqb statement "ROLLBACK"
    then (@Throw unit (Exn "connection lost"), p) else (Ret tt, p) in
  let callback := fun p : unit => (@Throw nat (Exn "insert failed"), p) in
  withTransaction (fun p => (Ret tt, p)) client callback (tt, [])
  = (Throw (Exn "connection lost"),
     (tt, [Connecting; Sent "BEGIN"; CallbackRun; Sent "ROLLBACK"; Released])).
Proof. reflexivity. Qed.

(* ================================================================== *)
(** * The bearer token *)
(* ================================================================== *)

Lemma split_aux_word (sep : ascii) (word rest cur : string) :
  (forall c, In c (list_ascii_of_string word) -> Ascii.eqb c sep = false) ->
  Str.split_aux sep cur (word ++ rest) = Str.split_aux sep (cur ++ word) rest.
Proof.
  revert cur. induction word as [|c word IH]; intros cur H.
  - now rewrite append_empty_r.
  - change (String c word ++ rest)%string with (String c (word ++ rest)).
    cbn [Str.split_aux]. rewrite (H c) by (now left).
    rewrite IH by (intros d Hd; apply H; now right).
    f_equal. rewrite append_assoc_string. reflexivity.
Qed.

Lemma split_aux_sep (sep : ascii) (rest cur : string) :
  Str.split_aux sep cur (String sep rest)
  = cur :: Str.split_aux sep EmptyString rest.
Proof. cbn [Str.split_aux]. now rewrite Ascii.eqb_refl. Qed.

Lemma nonempty_app_r (a b : string) :
  Str.nonempty b = true -> Str.nonempty (a ++ b) = true.
Proof. destruct a; simpl; auto. Qed.

(** X22. Which token [authenticateToken] verifies. The token is the
    second word of the authorization header, the words being separated by
    single spaces: the first word, the scheme, is not looked at, and what
    follows a second space is dropped. *)
Theorem bearerToken_second_word (scheme token rest : string) :
  (forall c, In c (list_ascii_of_string scheme) -> Ascii.eqb c " " = false) ->
  (forall c, In c (list_ascii_of_string token) -> Ascii.eqb c " " = false) ->
  bearerToken (VStr (scheme ++ " " ++ token)) = Ret (Some token) /\
  bearerToken (VStr (scheme ++ " " ++ token ++ " " ++ rest)) = Ret (Some token).
Proof.
  intros Hs Ht. unfold bearerToken, Str.split. split.
  - rewrite nonempty_app_r by reflexivity.
    rewrite split_aux_word by assumption.
    change (" " ++ token)%string with (String " " token).
    rewrite split_aux_sep.
    rewrite <- (append_empty_r token) at 1.
    rewrite split_aux_word by assumption. reflexivity.
  - rewrite nonempty_app_r by reflexivity.
    rewrite split_aux_word by assumption.
    change (" " ++ token ++ " " ++ rest)%string
      with (String " " (token ++ String " " rest)).
    rewrite split_aux_sep.
    rewrite split_aux_word by assumption.
    rewrite split_aux_sep. reflexivity.
Qed.

(** A header of the Basic scheme yields its second word as the token. *)
Lemma bearerToken_second_word_witness :
  bearerToken (VStr "Basic dXNlcjpwYXNz") = Ret (Some "dXNlcjpwYXNz").
Proof.
  apply (bearerToken_second_word "Basic" "dXNlcjpwYXNz" EmptyString);
    intros c Hc; simpl in Hc;
    repeat (destruct Hc as [<- | Hc]; [reflexivity|]); destruct Hc.
Defined.

(* ================================================================== *)
(** * Components named in the logs *)
(* ================================================================== *)

Lemma segments_nonempty (path : string) (i : nat) (seg : string) :
  nth_error (segments path) i = Some seg -> Str.nonempty seg = true.
Proof.
  intros H. apply nth_error_In in H. unfold segments in H.
  now apply filter_In in H.
Qed.

(** X23. The error row and the audit row name the same component. For a
    path of at least two segments, the application component of the row of
    system_errors and the module name of the row of audit_log are both the
    second segment; for a shorter path the first is "unknown" and the
    second "api". *)
Theorem component_names (path : string) :
  (forall seg, nth_error (segments path) 1 = Some seg ->
               getComponentFromPath path = seg /\ getModuleName path = seg) /\
  (nth_error (segments path) 1 = None ->
   getComponentFromPath path = "unknown" /\ getModuleName path = "api").
Proof.
  unfold getComponentFromPath, getModuleName. split.
  - intros seg H. rewrite H. cbn [or_str].
    now rewrite (segments_nonempty _ _ _ H).
  - intros ->. auto.
Qed.

(* ================================================================== *)
(** * Procedure and diagnosis codes *)
(* ================================================================== *)

Lemma span_all (p : ascii -> bool) (s : string) :
  all_chars p s = true -> span p s = (s, EmptyString).
Proof.
  induction s as [|c s IH]; simpl; [reflexivity|]. intros H.
  apply andb_true_iff in H as [Hc Hs]. now rewrite Hc, IH.
Qed.

Lemma take_class_whole (p : ascii -> bool) (s : string) :
  all_chars p s = true ->
  take_class p (String.length s) s = Some (s, EmptyString).
Proof.
  intros H. rewrite <- (append_empty_r s) at 2. now apply take_class_app.
Qed.

(** X24. [validateCPT] accepts exactly the strings of five digits.
    [validateICD10] accepts exactly a capital letter and two digits,
    alone or followed by a dot and one to three digits; so an accepted code
    has three, five, six or seven characters. *)
Theorem code_shapes (code : string) :
  (validateCPT code = true <->
   String.length code = 5 /\ all_chars is_digit code = true) /\
  (validateICD10 code = true <->
   exists (letter : ascii) (category fraction : string),
     is_upper letter = true /\
     String.length category = 2 /\ all_chars is_digit category = true /\
     all_chars is_digit fraction = true /\
     (code = String letter category /\ fraction = EmptyString
      \/ code = String letter (category ++ "." ++ fraction)
         /\ 1 <= String.length fraction <= 3)).
Proof.
  split.
  - unfold validateCPT, CPT_test. split.
    + destruct (take_class is_digit 5 code) as [[a r]|] eqn:E; [|discriminate].
      intros H. apply is_end_true in H. subst r.
      destruct (take_class_inv _ _ _ _ _ E) as (-> & Hlen & Hall).
      now rewrite append_empty_r.
    + intros [Hlen Hall]. rewrite <- Hlen, take_class_whole by assumption.
      reflexivity.
  - unfold validateICD10, ICD10_test. split.
    + destruct code as [|letter rest]; [discriminate|]. intros H.
      apply andb_true_iff in H as [Hu H].
      destruct (take_class is_digit 2 rest) as [[category r]|] eqn:E;
        [|discriminate].
      destruct (take_class_inv _ _ _ _ _ E) as (-> & Hlen & Hall).
      destruct r as [|dot frac].
      * exists letter, category, EmptyString.
        rewrite append_empty_r. repeat split; auto.
      * apply andb_true_iff in H as [Hdot H].
        apply Ascii.eqb_eq in Hdot. subst dot.
        destruct (span is_digit frac) as [digits after] eqn:Es.
        apply andb_true_iff in H as [H Hend].
        apply andb_true_iff in H as [H1 H3].
        apply is_end_true in Hend. subst after.
        destruct (span_inv _ _ _ _ Es) as [-> Hd].
        rewrite append_empty_r.
        apply Nat.leb_le in H1, H3.
        exists letter, category, digits. repeat split; auto.
    + intros (letter & category & fraction & Hu & Hlen & Hall & Hf
              & [[-> ->] | [-> [H1 H3]]]).
      * pose proof (take_class_whole is_digit category Hall) as T.
        rewrite Hlen in T. rewrite Hu, T. reflexivity.
      * pose proof (take_class_app is_digit category ("." ++ fraction) Hall) as T.
        rewrite Hlen in T. rewrite Hu, T.
        cbn [append andb Ascii.eqb Bool.eqb].
        rewrite span_all by assumption.
        cbn [andb is_end].
        apply Nat.leb_le in H1, H3. rewrite H1, H3. reflexivity.
Qed.

Example code_examples :
  validateICD10 "E11.9" = true /\ validateICD10 "E11." = false /\
  validateICD10 "e11.9" = false /\ validateICD10 "E11.1234" = false /\
  validateCPT "99213" = true /\ validateCPT "9921" = false.
Proof. repeat split; reflexivity. Qed.

(* ================================================================== *)
(** * Bodies that are no objects *)
(* ================================================================== *)

Lemma of_nat_head (n : nat) :
  exists c rest, Str.of_nat n = String c rest /\ is_digit c = true.
Proof.
  unfold Str.of_nat, NilZero.string_of_uint.
  destruct (Nat.to_uint n); cbn [NilEmpty.string_of_uint]; eauto.
Qed.

Lemma lookup_index_props {A : Type} (f : A -> value) (i : nat) (xs : list A)
    (k : string) :
  (forall c rest, k = String c rest -> is_digit c = false) ->
  Js.lookup k (Js.index_props f i xs) = None.
Proof.
  intros Hk. revert i. induction xs as [|x xs IH]; intros i; [reflexivity|].
  cbn [Js.index_props Js.lookup].
  destruct (String.eqb_spec k (Str.of_nat i)) as [E | _]; [|apply IH].
  destruct (of_nat_head i) as (c & rest & Hn & Hd).
  rewrite Hn in E. rewrite (Hk _ _ E) in Hd. discriminate.
Qed.

(** X25. A body that is an array is written as an object. The sanitizer
    turns an array into the object of its indices, "0", "1" and so on, with
    the elements unchanged, and that is what the row of system_errors
    holds as the body. *)
Theorem sanitizeRequestData_array (items : list value) :
  sanitizeRequestData (VArr items)
  = VObj (Js.index_props (fun x => x) 0 items) /\
  Js.keys (Js.index_props (fun x => x) 0 items)
  = map Str.of_nat (seq 0 (length items)) /\
  map snd (Js.index_props (fun x => x) 0 items) = items.
Proof.
  split; [|split].
  - unfold sanitizeRequestData. cbn [Js.truthy negb Js.spread]. f_equal.
    apply redact_fixed. intros f Hf Ht. exfalso.
    unfold Js.get in Ht. rewrite lookup_index_props in Ht; [discriminate|].
    intros c rest ->. simpl in Hf.
    destruct Hf as [[= <- _] | [[= <- _] | [[= <- _] | [[= <- _] | [[= <- _] | []]]]]];
      reflexivity.
  - generalize 0. induction items as [|x xs IH]; intros i; [reflexivity|].
    cbn [Js.index_props Js.keys map length seq fst]. f_equal. apply IH.
  - generalize 0. induction items as [|x xs IH]; intros i; [reflexivity|].
    cbn [Js.index_props map snd]. f_equal. apply IH.
Qed.
